(** * romspline: the greedy reduced-order spline of [greedy.py]

    A shallow embedding of [_seed], [_greedy], [readSpline] and of the
    methods of the class [ReducedOrderSpline].

    - numpy [float64] values are Rocq's primitive binary64 floats; the
      abscissas are floats from the start ([np.arange] of the source makes
      integers, which the fitter converts);
    - Python integers (indices, lengths, the degree) are [Z];
    - numpy arrays are lists; no array is updated in place by the source
      ([np.hstack], [np.sort] and slicing build new arrays), so [args] and
      [indices] are plain values;
    - an exception is an [outcome];
    - [scipy.interpolate.UnivariateSpline] is the one capability the source
      consumes and is a parameter of the development: a function that
      returns an interpolant or raises;
    - the file system that [write] and [readSpline] work on is a value, the
      [disk], passed in and returned; Python's [str] and [float] on floats
      and what h5py takes as a dataset are parameters.
    Output written with [print] under [verbose] is not modelled. *)

From Stdlib Require Import String Ascii DecimalString DecimalZ.
From Stdlib Require Import ZArith List Bool Lia Finite.
From Stdlib Require Import Sorting.Sorted Sorting.Permutation Sorting.Mergesort Orders.
From Stdlib Require Import Uint63 Floats.
Import ListNotations.

Local Open Scope Z_scope.

(** ** Outcomes of a call *)

Inductive exn : Type :=
| AssertionError
| IndexError
| ValueError
| ZeroDivisionError
| AttributeError
| KeyError
| IOError
| PlainException.

(** [OutOfFuel] is not a behaviour of the program: it marks a run of the
    model whose loop was given too few steps. *)
Inductive outcome (A : Type) : Type :=
| Returns (a : A)
| Raises (e : exn)
| OutOfFuel.

Arguments Returns {A} a.
Arguments Raises {A} e.
Arguments OutOfFuel {A}.

Definition bind {A B : Type} (c : outcome A) (k : A -> outcome B) : outcome B :=
  match c with
  | Returns a => k a
  | Raises e => Raises e
  | OutOfFuel => OutOfFuel
  end.

Notation "x <- c ;; k" := (bind c (fun x => k))
  (at level 61, c at next level, right associativity).

Definition assert (b : bool) : outcome unit :=
  if b then Returns tt else Raises AssertionError.

(** ** The numpy and Python operations the source calls *)

Definition len {A : Type} (a : list A) : Z := Z.of_nat (length a).

(** [range(m)]: empty when [m <= 0]. *)
Definition range (m : Z) : list Z := map Z.of_nat (seq 0 (Z.to_nat m)).

(** [a[i]] for one integer: a negative index counts from the end. *)
Definition getitem {A : Type} (a : list A) (i : Z) : outcome A :=
  let n := len a in
  if (i <? - n) || (n <=? i) then Raises IndexError
  else match nth_error a (Z.to_nat (if i <? 0 then i + n else i)) with
       | Some v => Returns v
       | None => Raises IndexError
       end.

(** [a[idx]] for an integer array [idx]. *)
Fixpoint take {A : Type} (a : list A) (idx : list Z) : outcome (list A) :=
  match idx with
  | [] => Returns []
  | i :: rest =>
      v <- getitem a i ;;
      vs <- take a rest ;;
      Returns (v :: vs)
  end.

(** [a[:-1]] *)
Definition drop_last {A : Type} (a : list A) : list A := removelast a.

Module ZOrder <: TotalLeBool.
Definition t := Z.
Definition leb := Z.leb.
Lemma leb_total : forall a b : Z, Z.leb a b = true \/ Z.leb b a = true.
Proof. intros a b. destruct (Z.leb_spec a b); [now left | right; apply Z.leb_le; lia]. Qed.
End ZOrder.

Module ZSort := Sort ZOrder.

Module np.

Definition hstack {A : Type} (parts : list (list A)) : list A := concat parts.

Definition sort (a : list Z) : list Z := ZSort.sort a.

Definition arange (n : Z) : list float :=
  map (fun i => of_uint63 (Uint63.of_Z i)) (range n).

Definition abs (a : list float) : list float := map PrimFloat.abs a.

(** [a - b] with numpy's broadcasting of one-element arrays. *)
Definition sub (a b : list float) : outcome (list float) :=
  if len a =? len b then Returns (map (fun p => (fst p - snd p)%float) (combine a b))
  else match a, b with
       | [a0], _ => Returns (map (fun v => (a0 - v)%float) b)
       | _, [b0] => Returns (map (fun v => (v - b0)%float) a)
       | _, _ => Raises ValueError
       end.

(** [np.maximum]: a NaN operand is the result. *)
Definition maximum (a b : float) : float :=
  if (b <=? a)%float || is_nan a then a else b.

Definition max (a : list float) : outcome float :=
  match a with
  | [] => Raises ValueError
  | v :: rest => Returns (fold_left maximum rest v)
  end.

(** [np.argmax] scans from the left and moves to an entry only when it is
    not [<=] the best one so far; a NaN ends the scan. *)
Fixpoint argmax_scan (mp : float) (max_ind i : Z) (a : list float) : Z :=
  match a with
  | [] => max_ind
  | v :: rest =>
      if negb (v <=? mp)%float
      then if is_nan v then i else argmax_scan v i (i + 1) rest
      else argmax_scan mp max_ind (i + 1) rest
  end.

Definition argmax (a : list float) : outcome Z :=
  match a with
  | [] => Raises ValueError
  | v :: rest => Returns (if is_nan v then 0 else argmax_scan v 0 1 rest)
  end.

Definition all (a : list bool) : bool := forallb (fun b => b) a.

End np.

(** ** The spline fitter *)

(** What [UnivariateSpline(xs, ys, k=deg, s=0)] returns: a callable
    [s(x, nu)], here at one abscissa. *)
Definition interpolant : Type := float -> Z -> float.

(** [UnivariateSpline(xs, ys, k=deg, s=0)] returns an interpolant or raises
    (scipy refuses, among others, a degree outside 1..5, no more points
    than the degree, and abscissas that do not increase). *)
Definition fitter : Type := list float -> list float -> Z -> exn + interpolant.

Definition lift {A : Type} (r : exn + A) : outcome A :=
  match r with
  | inl e => Raises e
  | inr a => Returns a
  end.

(** [s(x)] on an array. *)
Definition call (s : interpolant) (x : list float) : list float :=
  map (fun t => s t 0) x.

(** ** [_seed] (lines 344-353) *)

(** The [lambda] of line 347.  For [m <= 0] the range is empty and nothing
    is divided. *)
Definition f (m n : Z) : list Z :=
  map (fun ii => ii * n / m + n / (2 * m)) (range m).

Definition _seed (x : list float) (deg : Z) (seeds : option (list Z))
  : list Z * list float :=
  let indices :=
    match seeds with
    | None => np.sort (np.hstack [[0; len x - 1]; f (deg - 1) (len x)])
    | Some s => s
    end in
  let errors := [] in
  (indices, errors).

(** ** [_greedy] *)

(** The variables of the [while] loop of [_greedy]. *)
Record loop_state : Type := {
  flag : Z;
  ctr : Z;
  indices : list Z;
  args : list Z;
  errors : list float
}.

(** What [_greedy] returns: [spline, indices, args, errors, _tol]. *)
Record greedy_result : Type := {
  r_spline : interpolant;
  r_indices : list Z;
  r_args : list Z;
  r_errors : list float;
  r_tol : float
}.

(** The error evaluator: [np.abs(s(x) - y)]. *)
Definition abs_errors (s : interpolant) (x y : list float) : outcome (list float) :=
  d <- np.sub (call s x) y ;;
  Returns (np.abs d).

Section Greedy.

Variable UnivariateSpline : fitter.

Section Loop.

Variables x y : list float.
Variable deg : Z.
Variable _tol : float.

(** Lines 376 and 379: [errs] for the spline on the knots [idx]. *)
Definition fit_errors (idx : list Z) : outcome (list float) :=
  xs <- take x idx ;;
  ys <- take y idx ;;
  s <- lift (UnivariateSpline xs ys deg) ;;
  abs_errors s x y.

(** One pass through the body of the loop (lines 375-400). *)
Definition body (st : loop_state) : outcome loop_state :=
  errs <- fit_errors (indices st) ;;
  imax <- np.argmax errs ;;
  e <- getitem errs imax ;;
  let errors1 := errors st ++ [e] in
  let args1 := np.hstack [args st; [imax]] in
  let indices1 := np.sort (np.hstack [indices st; [imax]]) in
  last_error <- getitem errors1 (-1) ;;
  if (last_error <? _tol)%float
  then Returns {| flag := 1;
                  ctr := ctr st + 1;
                  indices := np.sort (drop_last args1);
                  args := drop_last args1;
                  errors := drop_last errors1 |}
  else Returns {| flag := flag st;
                  ctr := ctr st + 1;
                  indices := indices1;
                  args := args1;
                  errors := errors1 |}.

(** The worst point [(imax, errs[imax])] of the spline on the knots [idx],
    as [body] computes it. *)
Definition worst (idx : list Z) : outcome (Z * float) :=
  errs <- fit_errors idx ;;
  imax <- np.argmax errs ;;
  e <- getitem errs imax ;;
  Returns (imax, e).

(** The two states a pass can end in ([body_worst] below): the worst point
    kept, or dropped again with the flag raised. *)
Definition grown (st : loop_state) (imax : Z) (e : float) : loop_state :=
  {| flag := flag st;
     ctr := ctr st + 1;
     indices := np.sort (indices st ++ [imax]);
     args := args st ++ [imax];
     errors := errors st ++ [e] |}.

Definition trimmed (st : loop_state) : loop_state :=
  {| flag := 1;
     ctr := ctr st + 1;
     indices := np.sort (args st);
     args := args st;
     errors := errors st |}.

(** [while flag == 0 and ctr < len(x)]; one unit of fuel per test of the
    condition. *)
Fixpoint while (fuel : nat) (st : loop_state) : outcome loop_state :=
  match fuel with
  | O => OutOfFuel
  | S fuel' =>
      if (flag st =? 0) && (ctr st <? len x)
      then st' <- body st ;; while fuel' st'
      else Returns st
  end.

(** The states the loop passes through at its head, from [st0] on. *)
Inductive visits (st0 : loop_state) : loop_state -> Prop :=
| visits_start : visits st0 st0
| visits_next : forall st st',
    visits st0 st ->
    flag st = 0 -> ctr st < len x ->
    body st = Returns st' ->
    visits st0 st'.

End Loop.

(** [ymax] of [_greedy] (lines 361-365) and of the method [greedy]
    (lines 78-82). *)
Definition scale (y : list float) (rel : bool) : outcome float :=
  if rel
  then ymax <- np.max (np.abs y) ;;
       _ <- assert (0 <? ymax)%float ;;
       Returns ymax
  else Returns 1%float.

(** The loop variables after seeding (lines 369-373). *)
Definition seeded (x : list float) (deg : Z) (seeds : option (list Z)) : loop_state :=
  let '(indices0, errors0) := _seed x deg seeds in
  let args0 := indices0 in
  {| flag := 0; ctr := len indices0 + 1;
     indices := indices0; args := args0; errors := errors0 |}.

Definition _greedy (fuel : nat) (x y : list float) (tol : float) (rel : bool)
  (deg : Z) (seeds : option (list Z)) : outcome greedy_result :=
  ymax <- scale y rel ;;
  let _tol := (tol * ymax)%float in
  st <- while x y deg _tol fuel (seeded x deg seeds) ;;
  xs <- take x (indices st) ;;
  ys <- take y (indices st) ;;
  spline <- lift (UnivariateSpline xs ys deg) ;;
  Returns {| r_spline := spline; r_indices := indices st; r_args := args st;
             r_errors := errors st; r_tol := _tol |}.

(** ** The class [ReducedOrderSpline] *)

(** The attributes of an instance, [self_a] for [self.a] ([self_deg] is
    [self._deg], [self_tol_given] is [self._tol], [self_tol] is [self.tol]).
    An attribute that no statement has assigned yet is [None]. *)
Record ReducedOrderSpline : Type := {
  self_deg : Z;
  self_rel : bool;
  self_made : bool;
  self_tol_given : option float;
  self_spline : option interpolant;
  self_indices : option (list Z);
  self_args : option (list Z);
  self_errors : option (list float);
  self_tol : option float;
  self_X : option (list float);
  self_Y : option (list float);
  self_size : option Z;
  self_compression : option float
}.

Definition float_of_int (n : Z) : float := of_uint63 (Uint63.of_Z n).

(** The method [greedy] (lines 75-97); it assigns every attribute. *)
Definition greedy (fuel : nat) (self : ReducedOrderSpline) (x y : list float)
  (tol : float) (rel : bool) (deg : Z) (seeds : option (list Z))
  : outcome ReducedOrderSpline :=
  _ <- scale y rel ;;
  let _ := _seed x deg seeds in
  r <- _greedy fuel x y tol rel deg seeds ;;
  X <- take x (r_indices r) ;;
  Y <- take y (r_indices r) ;;
  let size := len (r_indices r) in
  compression <- (if size =? 0 then Raises ZeroDivisionError
                  else Returns (float_of_int (len y) / float_of_int size)%float) ;;
  Returns {| self_deg := deg;
             self_rel := rel;
             self_made := true;
             self_tol_given := Some tol;
             self_spline := Some (r_spline r);
             self_indices := Some (r_indices r);
             self_args := Some (r_args r);
             self_errors := Some (r_errors r);
             self_tol := Some (r_tol r);
             self_X := Some X;
             self_Y := Some Y;
             self_size := Some size;
             self_compression := Some compression |}.

(** The instance after the first three statements of [__init__]. *)
Definition fresh (deg : Z) (rel : bool) : ReducedOrderSpline :=
  {| self_deg := deg; self_rel := rel; self_made := false;
     self_tol_given := None; self_spline := None;
     self_indices := None; self_args := None; self_errors := None;
     self_tol := None; self_X := None; self_Y := None;
     self_size := None; self_compression := None |}.

Definition __init__ (fuel : nat) (x y : option (list float)) (deg : Z)
  (tol : float) (rel : bool) (seeds : option (list Z))
  : outcome ReducedOrderSpline :=
  let self := fresh deg rel in
  match y with
  | Some y =>
      let x := match x with None => np.arange (len y) | Some x => x end in
      _ <- assert (len x =? len y) ;;
      greedy fuel self x y tol rel deg seeds
  | None => Returns self
  end.

(** [verify] prints the report and returns [errors]; the pair is
    (printed value, returned value). *)
Definition verify (self : ReducedOrderSpline) (x y : list float)
  : outcome (bool * list float) :=
  if self_made self
  then match self_spline self with
       | Some s =>
           errors <- np.sub y (call s x) ;;
           match self_tol self with
           | Some tol =>
               Returns (np.all (map (fun e => (e <=? tol)%float) (np.abs errors)),
                        errors)
           | None => Raises AttributeError
           end
       | None => Raises AttributeError
       end
  else Raises PlainException.

End Greedy.

(** ** The other methods of the class *)

(** Reading an attribute: one that was never assigned raises. *)
Definition attr {A : Type} (a : option A) : outcome A :=
  match a with
  | Some v => Returns v
  | None => Raises AttributeError
  end.

(** The method [seed] (lines 26-36): it assigns [indices], [errors] and
    [args] and nothing else. *)
Definition seed (self : ReducedOrderSpline) (x : list float)
  (seeds : option (list Z)) : ReducedOrderSpline :=
  let indices :=
    match seeds with
    | None => np.sort (np.hstack [[0; len x - 1]; f (self_deg self - 1) (len x)])
    | Some s => s
    end in
  {| self_deg := self_deg self;
     self_rel := self_rel self;
     self_made := self_made self;
     self_tol_given := self_tol_given self;
     self_spline := self_spline self;
     self_indices := Some indices;
     self_args := Some indices;
     self_errors := Some [];
     self_tol := self_tol self;
     self_X := self_X self;
     self_Y := self_Y self;
     self_size := self_size self;
     self_compression := self_compression self |}.

(** [eval] (lines 102-104): [self._spline(x, dx)] on an array. *)
Definition eval (self : ReducedOrderSpline) (x : list float) (dx : Z)
  : outcome (list float) :=
  s <- attr (self_spline self) ;;
  Returns (map (fun t => s t dx) x).

(** [__call__] (lines 99-100). *)
Definition __call__ (self : ReducedOrderSpline) (x : list float) (dx : Z)
  : outcome (list float) :=
  eval self x dx.

(** The end of [readSpline] (lines 325-334), once [deg], [tol], [X], [Y] and
    [errors] were read from the file: a new instance (degree 5, absolute
    mode) with seven attributes assigned. *)
Definition assemble (UnivariateSpline : fitter) (deg : Z) (tol : float)
  (X Y errors : list float) : outcome ReducedOrderSpline :=
  let spline := fresh 5 false in
  s <- lift (UnivariateSpline X Y deg) ;;
  Returns {| self_deg := deg;
             self_rel := self_rel spline;
             self_made := true;
             self_tol_given := self_tol_given spline;
             self_spline := Some s;
             self_indices := self_indices spline;
             self_args := self_args spline;
             self_errors := Some errors;
             self_tol := Some tol;
             self_X := Some X;
             self_Y := Some Y;
             self_size := self_size spline;
             self_compression := self_compression spline |}.

(** The method [read] (lines 227-235) after its call of [readSpline]
    returned the instance [ans]. *)
Definition read (self ans : ReducedOrderSpline) : outcome ReducedOrderSpline :=
  spline <- attr (self_spline ans) ;;
  X <- attr (self_X ans) ;;
  Y <- attr (self_Y ans) ;;
  errors <- attr (self_errors ans) ;;
  tol <- attr (self_tol ans) ;;
  Returns {| self_deg := self_deg ans;
             self_rel := self_rel self;
             self_made := true;
             self_tol_given := self_tol_given self;
             self_spline := Some spline;
             self_indices := self_indices self;
             self_args := self_args self;
             self_errors := Some errors;
             self_tol := Some tol;
             self_X := Some X;
             self_Y := Some Y;
             self_size := self_size self;
             self_compression := self_compression self |}.

(** ** Persistence: [write], [_write] and [readSpline] *)

(** What the file system holds.  A text file is the list of its lines,
    without the newline that ends them: [fp.write(s + '\n')] adds the line
    [s], a single [fp.write(s)] leaves the one line [s], and [float] and
    [int] do not look at the newline at the end of a line.  An HDF5 file is
    its root group and its named groups, a group the list of its named
    datasets.  Paths are looked up as they are spelled; the parents of a
    path are not modelled. *)
Inductive dataset : Type :=
| IntScalar (v : Z)
| DoubleScalar (v : float)
| DoubleArray (v : list float).

Definition group : Type := list (string * dataset).

Record hdf5 : Type := {
  h5_root : group;
  h5_groups : list (string * group)
}.

Inductive node : Type :=
| Directory
| TextFile (lines : list string)
| Hdf5File (content : hdf5).

Definition disk : Type := list (string * node).

Fixpoint lookup {A : Type} (k : string) (m : list (string * A)) : option A :=
  match m with
  | [] => None
  | (k', v) :: rest => if String.eqb k' k then Some v else lookup k rest
  end.

Definition store {A : Type} (k : string) (v : A) (m : list (string * A))
  : list (string * A) :=
  (k, v) :: m.

(** [os.path.splitext]: the extension starts at the last dot of the last
    component of the path, unless only dots come before it there. *)
Fixpoint rfind_from (c : ascii) (p : string) (i found : Z) : Z :=
  match p with
  | EmptyString => found
  | String a rest => rfind_from c rest (i + 1) (if Ascii.eqb a c then i else found)
  end.

Definition rfind (c : ascii) (p : string) : Z := rfind_from c p 0 (-1).

Definition splitext (p : string) : string * string :=
  let sepIndex := rfind "/" p in
  let dotIndex := rfind "." p in
  let filename := substring (Z.to_nat (sepIndex + 1))
                            (Z.to_nat (dotIndex - sepIndex - 1)) p in
  if (sepIndex <? dotIndex)
     && existsb (fun a => negb (Ascii.eqb a ".")) (list_ascii_of_string filename)
  then (substring 0 (Z.to_nat dotIndex) p,
        substring (Z.to_nat dotIndex) (String.length p - Z.to_nat dotIndex) p)
  else (p, EmptyString).

(** [types] of lines 153 and 257. *)
Definition types : list string := [".txt"; ".h5"; ".hdf5"]%string.

Definition in_types (file_extension : string) : bool :=
  existsb (String.eqb file_extension) types.

Definition is_hdf5 (file_extension : string) : bool :=
  String.eqb file_extension ".h5" || String.eqb file_extension ".hdf5".

(** [str] and [int] on a Python integer: its decimal digits. *)
Definition str_int (n : Z) : string := NilZero.string_of_int (Z.to_int n).

Definition int_of_str (s : string) : outcome Z :=
  match NilZero.int_of_string s with
  | Some d => Returns (Z.of_int d)
  | None => Raises ValueError
  end.

Section Persistence.

Variable UnivariateSpline : fitter.

(** [str(v)] of a float [v], and [float(s)] of a string [s], which raises
    on a string that is no number. *)
Variable str : float -> string.
Variable float_of_str : string -> outcome float.

(** Whether h5py takes the data for a new dataset, without or with the
    filters [compression='gzip', shuffle=True]. *)
Variable storable : dataset -> bool -> bool.

Fixpoint floats (lines : list string) : outcome (list float) :=
  match lines with
  | [] => Returns []
  | line :: rest =>
      v <- float_of_str line ;;
      vs <- floats rest ;;
      Returns (v :: vs)
  end.

(** [os.path.exists]. *)
Definition path_exists (d : disk) (path : string) : bool :=
  match lookup path d with
  | Some _ => true
  | None => false
  end.

(** [fp = open(file + name, 'w')], the writes of [text] and [fp.close()].
    The file is opened, and so emptied, before the text is computed. *)
Definition write_file (d : disk) (file name : string) (text : outcome (list string))
  : outcome disk :=
  match lookup file d, lookup (file ++ name) d with
  | Some Directory, Some Directory => Raises IOError
  | Some Directory, _ =>
      lines <- text ;;
      Returns (store (file ++ name) (TextFile lines) d)
  | _, _ => Raises IOError
  end.

(** The text branch of [write] (lines 170-202). *)
Definition write_txt (self : ReducedOrderSpline) (file : string) (slim : bool)
  (d : disk) : outcome disk :=
  let d := if negb (path_exists d file) then store file Directory d else d in
  d <- write_file d file "/deg.txt" (Returns [str_int (self_deg self)]) ;;
  d <- write_file d file "/tol.txt" (tol <- attr (self_tol self) ;; Returns [str tol]) ;;
  d <- write_file d file "/X.txt" (X <- attr (self_X self) ;; Returns (map str X)) ;;
  d <- write_file d file "/Y.txt" (Y <- attr (self_Y self) ;; Returns (map str Y)) ;;
  if negb slim
  then write_file d file "/errors.txt"
         (errors <- attr (self_errors self) ;; Returns (map str errors))
  else Returns d.

(** [descriptor.create_dataset(name, data=..., dtype=...)]; h5py refuses a
    name that is taken. *)
Definition create_dataset (descriptor : group) (name : string) (data : dataset)
  (filters : bool) : outcome group :=
  match lookup name descriptor with
  | Some _ => Raises ValueError
  | None =>
      if storable data filters
      then Returns (store name data descriptor)
      else Raises ValueError
  end.

(** [_write] (lines 204-214) on the datasets of an open file or group, which
    is also what [write] does when it is given one. *)
Definition _write (self : ReducedOrderSpline) (descriptor : group) (slim : bool)
  : outcome group :=
  g <- create_dataset descriptor "deg" (IntScalar (self_deg self)) false ;;
  tol <- attr (self_tol self) ;;
  g <- create_dataset g "tol" (DoubleScalar tol) false ;;
  X <- attr (self_X self) ;;
  g <- create_dataset g "X" (DoubleArray X) true ;;
  Y <- attr (self_Y self) ;;
  g <- create_dataset g "Y" (DoubleArray Y) true ;;
  if negb slim
  then errors <- attr (self_errors self) ;;
       create_dataset g "errors" (DoubleArray errors) true
  else Returns g.

(** [write] (lines 116-202) with a file name. *)
Definition write (self : ReducedOrderSpline) (file : string) (slim : bool) (d : disk)
  : outcome disk :=
  let file_extension := snd (splitext file) in
  _ <- assert (in_types file_extension) ;;
  d <- (if is_hdf5 file_extension
        then match lookup file d with
             | Some Directory => Raises PlainException
             | _ =>
                 fp <- _write self [] slim ;;
                 Returns (store file (Hdf5File {| h5_root := fp; h5_groups := [] |}) d)
             end
        else Returns d) ;;
  if String.eqb file_extension ".txt"
  then write_txt self file slim d
  else Returns d.

(** [gp[name]], then [[()]] or [[:]].  A dataset of another kind than the
    one [_write] creates under the name raises here. *)
Definition dataset_of (gp : group) (name : string) : outcome dataset :=
  match lookup name gp with
  | Some data => Returns data
  | None => Raises KeyError
  end.

Definition int_scalar (data : dataset) : outcome Z :=
  match data with
  | IntScalar v => Returns v
  | _ => Raises ValueError
  end.

Definition double_scalar (data : dataset) : outcome float :=
  match data with
  | DoubleScalar v => Returns v
  | _ => Raises ValueError
  end.

Definition double_array (data : dataset) : outcome (list float) :=
  match data with
  | DoubleArray v => Returns v
  | _ => Raises ValueError
  end.

(** [open(path, 'r')]: the lines of a text file; an HDF5 file opens too,
    but holds no line that is a number. *)
Definition open_r (d : disk) (path : string) : outcome (option (list string)) :=
  match lookup path d with
  | Some (TextFile lines) => Returns (Some lines)
  | Some (Hdf5File _) => Returns None
  | _ => Raises IOError
  end.

(** [fp.read()] under [int] or [float]: the one line of the file. *)
Definition read_all (fp : option (list string)) : outcome string :=
  match fp with
  | Some [line] => Returns line
  | _ => Raises ValueError
  end.

(** [for line in fp: ... float(line)]. *)
Definition read_floats (fp : option (list string)) : outcome (list float) :=
  match fp with
  | Some lines => floats lines
  | None => Raises ValueError
  end.

(** [readSpline] (lines 238-336). *)
Definition readSpline (file : string) (group_name : option string) (d : disk)
  : outcome ReducedOrderSpline :=
  let file_extension := snd (splitext file) in
  _ <- assert (in_types file_extension) ;;
  if is_hdf5 file_extension
  then match lookup file d with
       | Some (Hdf5File fp) =>
           gp <- match group_name with
                 | Some name =>
                     if String.eqb name EmptyString then Returns (h5_root fp)
                     else match lookup name (h5_groups fp) with
                          | Some g => Returns g
                          | None => Raises KeyError
                          end
                 | None => Returns (h5_root fp)
                 end ;;
           deg <- (data <- dataset_of gp "deg" ;; int_scalar data) ;;
           tol <- (data <- dataset_of gp "tol" ;; double_scalar data) ;;
           X <- (data <- dataset_of gp "X" ;; double_array data) ;;
           Y <- (data <- dataset_of gp "Y" ;; double_array data) ;;
           errors <- match lookup "errors"%string gp with
                     | Some data => double_array data
                     | None => Returns []
                     end ;;
           assemble UnivariateSpline deg tol X Y errors
       | _ => Raises PlainException
       end
  else
    fp_deg <- open_r d (file ++ "/deg.txt") ;;
    fp_tol <- open_r d (file ++ "/tol.txt") ;;
    fp_X <- open_r d (file ++ "/X.txt") ;;
    fp_Y <- open_r d (file ++ "/Y.txt") ;;
    let fp_errs := open_r d (file ++ "/errors.txt") in
    deg <- (text <- read_all fp_deg ;; int_of_str text) ;;
    tol <- (text <- read_all fp_tol ;; float_of_str text) ;;
    X <- read_floats fp_X ;;
    Y <- read_floats fp_Y ;;
    errors <- match fp_errs with
              | Returns fp => read_floats fp
              | _ => Returns []
              end ;;
    assemble UnivariateSpline deg tol X Y errors.

End Persistence.

(** ** Stand-ins for the fitter, for running the model *)

(** The interpolant of all-zero ordinates. *)
Definition zero_fit : fitter := fun _ _ _ => inr (fun _ _ => 0%float).

(** An interpolant that is exact at its knots and zero elsewhere. *)
Fixpoint table (xs ys : list float) (t : float) : float :=
  match xs, ys with
  | xk :: xs', yk :: ys' => if PrimFloat.Leibniz.eqb xk t then yk else table xs' ys' t
  | _, _ => 0%float
  end.

Definition table_spline (xs ys : list float) : interpolant :=
  fun t _ => table xs ys t.

Definition table_fit : fitter := fun xs ys _ => inr (table_spline xs ys).

(** The same behind the input checks of scipy's fitter for [s=0]: a degree
    within 1..5, more points than the degree, strictly increasing
    abscissas. *)
Fixpoint strictly_increasing (xs : list float) : bool :=
  match xs with
  | a :: (b :: _) as rest => (a <? b)%float && strictly_increasing rest
  | _ => true
  end.

Definition checked_fit : fitter := fun xs ys k =>
  if (1 <=? k) && (k <=? 5) && (k <? len xs) && strictly_increasing xs
  then inr (table_spline xs ys)
  else inl ValueError.

(** ** Stand-ins for [str] and [float], for running the model *)

(** Python 2 writes a float with [str] as [%.12g] does, twelve significant
    digits, and [float] reads a decimal as the nearest binary64 value. *)
Module py.

Definition digits (n : Z) : list ascii :=
  list_ascii_of_string (NilZero.string_of_uint (N.to_uint (Z.to_N n))).

(** [10^k <= num/den]. *)
Definition ge_pow10 (num den k : Z) : bool :=
  if 0 <=? k then 10 ^ k * den <=? num else den <=? num * 10 ^ (- k).

Fixpoint exp10_scan (num den : Z) (fuel : nat) (k : Z) : Z :=
  match fuel with
  | O => k
  | S fuel' => if ge_pow10 num den k then k else exp10_scan num den fuel' (k - 1)
  end.

Definition round_half_even (n d : Z) : Z :=
  let q := n / d in
  let r := n mod d in
  if 2 * r <? d then q
  else if d <? 2 * r then q + 1
  else if Z.even q then q else q + 1.

(** The twelve digits of [num/den] and its decimal exponent. *)
Definition significand (num den : Z) : Z * Z :=
  let k := exp10_scan num den 700 310 in
  let s := 11 - k in
  let D := if 0 <=? s then round_half_even (num * 10 ^ s) den
           else round_half_even num (den * 10 ^ (- s)) in
  if D =? 10 ^ 12 then (10 ^ 11, k + 1) else (D, k).

Fixpoint strip_zeros (s : list ascii) : list ascii :=
  match s with
  | [] => []
  | c :: rest =>
      match strip_zeros rest with
      | [] => if Ascii.eqb c "0" then [] else [c]
      | rest' => c :: rest'
      end
  end.

Definition zeros (n : Z) : list ascii := repeat "0"%char (Z.to_nat n).

Definition fixed (ds : list ascii) (k : Z) : list ascii :=
  if 0 <=? k
  then let n := Z.to_nat (k + 1) in
       let whole := firstn n (ds ++ zeros (k + 1)) in
       match skipn n ds with
       | [] => whole ++ list_ascii_of_string ".0"
       | frac => whole ++ "."%char :: frac
       end
  else list_ascii_of_string "0." ++ zeros (- k - 1) ++ ds.

Definition scientific (ds : list ascii) (k : Z) : list ascii :=
  let mant := match ds with
              | [] => []
              | [c] => [c]
              | c :: rest => c :: "."%char :: rest
              end in
  let sign := if k <? 0 then "-"%char else "+"%char in
  let e := digits (Z.abs k) in
  mant ++ "e"%char :: sign :: (if Z.abs k <? 10 then "0"%char :: e else e).

Definition str (v : float) : string :=
  match Prim2SF v with
  | S754_nan => "nan"
  | S754_infinity s => if s then "-inf" else "inf"
  | S754_zero s => if s then "-0.0" else "0.0"
  | S754_finite s m e =>
      let num := if 0 <=? e then Z.pos m * 2 ^ e else Z.pos m in
      let den := if 0 <=? e then 1 else 2 ^ (- e) in
      let '(D, k) := significand num den in
      let ds := strip_zeros (digits D) in
      let body := if (k <? -4) || (12 <=? k) then scientific ds k else fixed ds k in
      string_of_list_ascii (if s then "-"%char :: body else body)
  end.

Fixpoint split_at (c : ascii) (s : list ascii) : list ascii * option (list ascii) :=
  match s with
  | [] => ([], None)
  | a :: rest =>
      if Ascii.eqb a c then ([], Some rest)
      else let '(l, r) := split_at c rest in (a :: l, r)
  end.

Definition number (s : list ascii) : option Z :=
  match s with
  | [] => None
  | _ => option_map Z.of_uint (NilZero.uint_of_string (string_of_list_ascii s))
  end.

Definition signed (s : list ascii) : bool * list ascii :=
  match s with
  | "-"%char :: rest => (true, rest)
  | "+"%char :: rest => (false, rest)
  | _ => (false, s)
  end.

(** The binary64 value nearest to [M * 10^E], ties to even: the quotient
    is taken with more than 64 bits and one more bit that tells whether
    anything was left. *)
Definition nearest (M E : Z) : float :=
  if M =? 0 then 0%float
  else if 0 <=? E then SF2Prim (binary_normalize prec emax (M * 10 ^ E) 0 false)
  else let d := 10 ^ (- E) in
       let s := Z.max 0 (66 + Z.log2 d - Z.log2 M) in
       let q := (M * 2 ^ s) / d in
       let r := (M * 2 ^ s) mod d in
       SF2Prim (binary_normalize prec emax (2 * q + (if r =? 0 then 0 else 1))
                                 (- s - 1) false).

Definition float (text : string) : outcome float :=
  let '(neg, s) := signed (list_ascii_of_string text) in
  let sign v := if neg then (- v)%float else v in
  if String.eqb (string_of_list_ascii s) "inf" then Returns (sign infinity)
  else if String.eqb (string_of_list_ascii s) "nan" then Returns nan
  else
    let '(mant, ex) := split_at "e" s in
    let '(whole, frac) := split_at "." mant in
    let frac := match frac with Some f => f | None => [] end in
    let exponent := match ex with
                    | None => Some 0
                    | Some t => let '(eneg, t') := signed t in
                                option_map (fun n => if eneg then - n else n) (number t')
                    end in
    match number (whole ++ frac), exponent with
    | Some M, Some E => Returns (sign (nearest M (E - Z.of_nat (length frac))))
    | _, _ => Raises ValueError
    end.

End py.

(** A store that takes every dataset. *)
Definition any_dataset : dataset -> bool -> bool := fun _ _ => true.

(** Data for running the model: six points, three of them off zero, and
    five points on zero. *)
Definition x6 : list float := np.arange 6.
Definition y6 : list float := [0; 3; 0; 4; 1; 0]%float.
Definition x5 : list float := np.arange 5.
Definition y5 : list float := [0; 0; 0; 0; 0]%float.


(** The loop on [x6], [y6] with degree 2: the seeds, then one and two
    passes. *)
Definition s6_0 : loop_state := seeded x6 2 None.
Definition s6_1 : loop_state := grown s6_0 1 3%float.
Definition s6_2 : loop_state := grown s6_1 4 1%float.


(** The result of [_greedy] and the model of [greedy] on [x6], [y6] with
    tolerance [2]: the second pass converges. *)
Definition result6 : greedy_result :=
  {| r_spline := table_spline [0; 1; 3; 5]%float [0; 3; 4; 0]%float;
     r_indices := [0; 1; 3; 5];
     r_args := [0; 3; 5; 1];
     r_errors := [3%float];
     r_tol := (2 * 1)%float |}.

Definition converged6 : ReducedOrderSpline :=
  match greedy table_fit 7 (fresh 2 false) x6 y6 2%float false 2 None with
  | Returns self => self
  | _ => fresh 2 false
  end.

(** ** Vocabulary of the properties *)

Definition ascending (a : list Z) : Prop := Sorted Z.le a.

(** The indices [a[i]] accepts on an array of length [n]. *)
Definition in_bounds (n i : Z) : Prop := - n <= i < n.

Definition no_nan (a : list float) : bool := forallb (fun v => negb (is_nan v)) a.

(** The entry at position [r] is an upper bound of the array and strictly
    above every entry before it. *)
Definition first_maximum (a : list float) (r : nat) : Prop :=
  exists e, nth_error a r = Some e
  /\ (forall v, In v a -> (v <=? e)%float = true)
  /\ (forall j v, (j < r)%nat -> nth_error a j = Some v -> (v <? e)%float = true).

(** The interior seed point number [ii]. *)
Definition seed_point (m n ii : Z) : Z := ii * n / m + n / (2 * m).

(** The two views of the knot set. *)
Definition same_knots (st : loop_state) : Prop :=
  len (indices st) = len (args st) /\ Permutation (args st) (indices st).

(** Lines 402-405 of [_greedy]: the final fit and the returned tuple. *)
Definition deliver (UnivariateSpline : fitter) (x y : list float) (deg : Z)
  (_tol : float) (st : loop_state) : outcome greedy_result :=
  xs <- take x (indices st) ;;
  ys <- take y (indices st) ;;
  spline <- lift (UnivariateSpline xs ys deg) ;;
  Returns {| r_spline := spline; r_indices := indices st; r_args := args st;
             r_errors := errors st; r_tol := _tol |}.

(** A reduced model: built, with its tolerance, data and trace, and with
    the interpolant that the fit through [X] and [Y] returned. *)
Definition reduced_model (UnivariateSpline : fitter) (self : ReducedOrderSpline)
  (tol : float) (X Y errors : list float) (s : interpolant) : Prop :=
  self_made self = true
  /\ self_tol self = Some tol
  /\ self_X self = Some X
  /\ self_Y self = Some Y
  /\ self_errors self = Some errors
  /\ UnivariateSpline X Y (self_deg self) = inr s
  /\ self_spline self = Some s.













(** * Properties *)

(** ** Integer division *)

Lemma div_bounds (a m : Z) : 0 < m -> m * (a / m) <= a < m * (a / m) + m.
Proof.
  intros Hm. pose proof (Z.mul_div_le a m Hm). pose proof (Z.mul_succ_div_gt a m Hm). lia.
Qed.

Lemma seed_point_bounds (m n i : Z) :
  1 <= m -> 1 <= n -> 0 <= i < m -> 0 <= i * n / m + n / (2 * m) <= n - 1.
Proof.
  intros Hm Hn Hi.
  pose proof (div_bounds (i * n) m ltac:(lia)) as H1.
  pose proof (div_bounds n (2 * m) ltac:(lia)) as H2.
  set (a := i * n / m) in *. set (q := n / (2 * m)) in *.
  assert (0 <= a) by nia. assert (0 <= q) by nia.
  split; [lia|].
  assert (m * (n - a) >= n) by nia.
  destruct (Z.eq_dec q 0); [nia|].
  assert (m * (n - a) >= m * (2 * q)) by nia.
  assert (n - a >= 2 * q) by nia. lia.
Qed.

Lemma seed_point_interior (m n i : Z) :
  1 <= m -> 2 * m < n -> 0 <= i < m -> 1 <= i * n / m + n / (2 * m) <= n - 2.
Proof.
  intros Hm Hn Hi.
  pose proof (div_bounds (i * n) m ltac:(lia)) as H1.
  pose proof (div_bounds n (2 * m) ltac:(lia)) as H2.
  set (a := i * n / m) in *. set (q := n / (2 * m)) in *.
  assert (0 <= a) by nia. assert (1 <= q) by nia.
  split; [lia|].
  assert (m * (n - a) >= n) by nia.
  assert (n - a >= 3) by nia.
  assert (m * (n - a) >= m * (2 * q)) by nia.
  assert (n - a >= 2 * q) by nia. lia.
Qed.

Lemma seed_point_increasing (m n i j : Z) :
  1 <= m -> m <= n -> 0 <= i < j -> i * n / m < j * n / m.
Proof.
  intros Hm Hn Hij.
  pose proof (div_bounds (i * n) m ltac:(lia)) as H1.
  pose proof (div_bounds (j * n) m ltac:(lia)) as H2.
  set (a := i * n / m) in *. set (b := j * n / m) in *.
  assert (j * n >= i * n + m) by nia.
  nia.
Qed.

(** ** Lengths, [range] and indexing *)

Lemma len_nonneg {A : Type} (a : list A) : 0 <= len a.
Proof. unfold len. lia. Qed.

Lemma len_app {A : Type} (a b : list A) : len (a ++ b) = len a + len b.
Proof. unfold len. rewrite length_app. lia. Qed.

Lemma len_map {A B : Type} (g : A -> B) (a : list A) : len (map g a) = len a.
Proof. unfold len. now rewrite length_map. Qed.

Lemma len_range (m : Z) : len (range m) = Z.max 0 m.
Proof. unfold len, range. rewrite length_map, length_seq. lia. Qed.

Lemma in_range (m i : Z) : In i (range m) <-> 0 <= i < m.
Proof.
  unfold range. rewrite in_map_iff. split.
  - intros (k & <- & Hk). apply in_seq in Hk. lia.
  - intros Hi. exists (Z.to_nat i). split; [lia|]. apply in_seq. lia.
Qed.

Lemma NoDup_range (m : Z) : NoDup (range m).
Proof.
  unfold range. apply Finite.Injective_map_NoDup; [|apply seq_NoDup].
  intros a b Hab. lia.
Qed.

(** ** [np.sort] *)

Lemma sort_Permutation (a : list Z) : Permutation a (np.sort a).
Proof. apply ZSort.Permuted_sort. Qed.

Lemma sort_ascending (a : list Z) : ascending (np.sort a).
Proof.
  unfold ascending, np.sort.
  induction (ZSort.Sorted_sort a) as [|v l _ IH Hd]; constructor; [exact IH|].
  destruct Hd as [|w l Hvw]; constructor. now apply Z.leb_le.
Qed.

Lemma len_sort (a : list Z) : len (np.sort a) = len a.
Proof. unfold len. now rewrite <- (Permutation_length (sort_Permutation a)). Qed.

Lemma in_sort (a : list Z) (i : Z) : In i (np.sort a) <-> In i a.
Proof.
  split; apply Permutation_in; [symmetry|]; apply sort_Permutation.
Qed.

Lemma ascending_strong (a : list Z) : ascending a -> StronglySorted Z.le a.
Proof. apply Sorted_StronglySorted. intros p q r. apply Z.le_trans. Qed.

Lemma ascending_unique (a b : list Z) :
  ascending a -> ascending b -> Permutation a b -> a = b.
Proof.
  intros Ha Hb. apply ascending_strong in Ha, Hb.
  revert b Hb. induction Ha as [|v a Ha IH Hv]; intros b Hb Hp.
  - now apply Permutation_nil in Hp.
  - destruct Hb as [|w b Hb Hw].
    + symmetry in Hp. now apply Permutation_nil in Hp.
    + assert (v = w) as ->.
      { assert (In v (w :: b)) as Hin1 by (eapply Permutation_in; [exact Hp | now left]).
        assert (In w (v :: a)) as Hin2
            by (eapply Permutation_in; [symmetry; exact Hp | now left]).
        rewrite Forall_forall in Hv, Hw.
        destruct Hin1 as [->|Hin1]; [reflexivity|].
        destruct Hin2 as [->|Hin2]; [reflexivity|].
        apply Hw in Hin1. apply Hv in Hin2. lia. }
      f_equal. apply IH; [exact Hb|]. now apply Permutation_cons_inv in Hp.
Qed.

Lemma sort_of_permutation (a b : list Z) :
  ascending b -> Permutation a b -> np.sort a = b.
Proof.
  intros Hb Hp. apply ascending_unique; [apply sort_ascending | exact Hb |].
  now rewrite <- (sort_Permutation a).
Qed.

(** ** The seeder *)

Lemma f_points (m n : Z) : f m n = map (seed_point m n) (range m).
Proof. reflexivity. Qed.

Lemma NoDup_f (m n : Z) : 1 <= m -> m <= n -> NoDup (f m n).
Proof.
  intros Hm Hn. rewrite f_points.
  apply Finite.Injective_map_NoDup_in; [|apply NoDup_range].
  intros i j Hi Hj Hij. apply in_range in Hi, Hj. unfold seed_point in Hij.
  destruct (Z.lt_trichotomy i j) as [Hlt|[Heq|Hlt]]; [|exact Heq|].
  - pose proof (seed_point_increasing m n i j Hm Hn ltac:(lia)). lia.
  - pose proof (seed_point_increasing m n j i Hm Hn ltac:(lia)). lia.
Qed.

Lemma default_seed (x : list float) (d : Z) :
  fst (_seed x d None) = np.sort (0 :: len x - 1 :: f (d - 1) (len x)).
Proof. unfold _seed, np.hstack. simpl. now rewrite app_nil_r. Qed.

Lemma default_seed_in_range (x : list float) (d : Z) :
  1 <= len x ->
  Forall (fun i => 0 <= i <= len x - 1) (fst (_seed x d None)).
Proof.
  intros Hn. rewrite default_seed. apply Forall_forall. intros i Hi.
  rewrite in_sort in Hi. cbn [In] in Hi. destruct Hi as [<-|[<-|Hi]]; [lia|lia|].
  rewrite f_points in Hi. apply in_map_iff in Hi. destruct Hi as (k & <- & Hk).
  apply in_range in Hk. apply seed_point_bounds; lia.
Qed.

Lemma seed_first_point (m n : Z) : 1 <= m -> 0 <= n < 2 * m -> In 0 (f m n).
Proof.
  intros Hm Hn. rewrite f_points. apply in_map_iff. exists 0. split.
  - unfold seed_point. rewrite Z.mul_0_l, Z.div_0_l by lia.
    rewrite Z.div_small by lia. reflexivity.
  - apply in_range. lia.
Qed.

Lemma seed_last_point (m : Z) : 1 <= m -> In (2 * m - 1) (f m (2 * m)).
Proof.
  intros Hm. rewrite f_points. apply in_map_iff. exists (m - 1). split.
  - unfold seed_point.
    replace ((m - 1) * (2 * m)) with (2 * (m - 1) * m) by ring.
    rewrite Z.div_mul by lia. rewrite Z.div_same by lia. lia.
  - apply in_range. lia.
Qed.

Lemma NoDup_default_seed (x : list float) (d : Z) :
  2 <= d -> d < len x ->
  NoDup (fst (_seed x d None)) <-> 2 * (d - 1) < len x.
Proof.
  intros Hd Hn. rewrite default_seed.
  set (n := len x) in *. set (m := d - 1) in *.
  split.
  - intros Hnd.
    apply (Permutation_NoDup (Permutation_sym (sort_Permutation _))) in Hnd.
    destruct (Z.lt_ge_cases (2 * m) n) as [Hlt|Hge]; [exact Hlt|exfalso].
    apply NoDup_cons_iff in Hnd. destruct Hnd as [H0 Hnd].
    apply NoDup_cons_iff in Hnd. destruct Hnd as [Hlast _].
    destruct (Z.eq_dec n (2 * m)) as [Heq|Hne].
    + apply Hlast. rewrite Heq. apply seed_last_point. lia.
    + apply H0. right. apply seed_first_point; lia.
  - intros Hlt. apply (Permutation_NoDup (sort_Permutation _)).
    assert (forall i, In i (f m n) -> 1 <= i <= n - 2) as Hin.
    { intros i Hi. rewrite f_points in Hi. apply in_map_iff in Hi.
      destruct Hi as (k & <- & Hk). apply in_range in Hk.
      apply seed_point_interior; lia. }
    constructor; [|constructor].
    + intros [Heq|Hi]; [lia|]. apply Hin in Hi. lia.
    + intros Hi. apply Hin in Hi. lia.
    + apply NoDup_f; lia.
Qed.

(** C2, amended.  For a degree [d >= 2] and a domain of length [n > d] the
    seeder without a seed list returns the ascending sort of the two end
    points [0], [n-1] and the [d-1] points [i*n/(d-1) + n/(2(d-1))],
    [i = 0 .. d-2] (floor division), with an empty trace: exactly [d+1]
    indices in [0, n-1], among them [0] and [n-1].  Nothing removes a
    duplicate: the indices are pairwise distinct exactly when
    [n > 2(d-1)]. *)
Theorem seed_default_indices (x : list float) (d : Z) :
  2 <= d -> d < len x ->
  let n := len x in
  let idx := fst (_seed x d None) in
  idx = np.sort (0 :: n - 1 ::
                 map (fun i => i * n / (d - 1) + n / (2 * (d - 1))) (range (d - 1)))
  /\ snd (_seed x d None) = []
  /\ len idx = d + 1
  /\ ascending idx
  /\ In 0 idx
  /\ In (n - 1) idx
  /\ Forall (fun i => 0 <= i <= n - 1) idx
  /\ (NoDup idx <-> 2 * (d - 1) < n).
Proof.
  intros Hd Hn n idx. subst idx n.
  repeat split.
  - apply default_seed.
  - rewrite default_seed, len_sort. fold (f (d - 1) (len x)).
    change (len (0 :: len x - 1 :: f (d - 1) (len x)))
      with (len ([0; len x - 1] ++ f (d - 1) (len x))).
    rewrite len_app, f_points, len_map, len_range.
    change (len [0; len x - 1]) with 2. lia.
  - rewrite default_seed. apply sort_ascending.
  - rewrite default_seed. apply in_sort. now left.
  - rewrite default_seed. apply in_sort. right. now left.
  - apply default_seed_in_range. lia.
  - apply NoDup_default_seed; assumption.
  - apply NoDup_default_seed; assumption.
Qed.

(** ** Comparisons of binary64 values *)

Ltac cmp_cases :=
  repeat match goal with
  | |- context [Z.compare ?a ?b] => destruct (Z.compare_spec a b)
  | |- context [Pos.compare_cont Eq ?a ?b] =>
      change (Pos.compare_cont Eq a b) with (Pos.compare a b);
      destruct (Pos.compare_spec a b)
  end.

Ltac by_float_cases :=
  try reflexivity; try discriminate; try congruence; cmp_cases; simpl;
  try reflexivity; try discriminate; intros; subst; lia.

Lemma SFleb_trans (a b c : spec_float) :
  SFleb a b = true -> SFleb b c = true -> SFleb a c = true.
Proof.
  unfold SFleb, SFcompare.
  destruct a as [[]|[]| |[] ma ea], b as [[]|[]| |[] mb eb], c as [[]|[]| |[] mc ec];
    by_float_cases.
Qed.

Lemma SFleb_ltb_trans (a b c : spec_float) :
  SFleb a b = true -> SFltb b c = true -> SFltb a c = true.
Proof.
  unfold SFleb, SFltb, SFcompare.
  destruct a as [[]|[]| |[] ma ea], b as [[]|[]| |[] mb eb], c as [[]|[]| |[] mc ec];
    by_float_cases.
Qed.

Lemma SFleb_false (a b : spec_float) :
  a <> S754_nan -> b <> S754_nan -> SFleb a b = false -> SFltb b a = true.
Proof.
  unfold SFleb, SFltb, SFcompare.
  destruct a as [[]|[]| |[] ma ea], b as [[]|[]| |[] mb eb]; by_float_cases.
Qed.

Lemma SFcompare_refl (a : spec_float) : a <> S754_nan -> SFcompare a a = Some Eq.
Proof.
  unfold SFcompare. destruct a as [[]|[]| |[] ma ea]; by_float_cases.
Qed.

Lemma SFltb_leb (a b : spec_float) : SFltb a b = true -> SFleb a b = true.
Proof. unfold SFltb, SFleb. destruct (SFcompare a b) as [[]|]; congruence. Qed.

Lemma is_nan_spec (v : float) : is_nan v = false <-> Prim2SF v <> S754_nan.
Proof.
  unfold is_nan. rewrite eqb_spec. unfold SFeqb. split.
  - intros H E. rewrite E in H. discriminate H.
  - intros H. now rewrite SFcompare_refl.
Qed.

Lemma leb_refl (a : float) : is_nan a = false -> (a <=? a)%float = true.
Proof.
  intros H. apply is_nan_spec in H. rewrite leb_spec. unfold SFleb.
  now rewrite SFcompare_refl.
Qed.

Lemma leb_trans (a b c : float) :
  (a <=? b)%float = true -> (b <=? c)%float = true -> (a <=? c)%float = true.
Proof. rewrite !leb_spec. apply SFleb_trans. Qed.

Lemma leb_ltb_trans (a b c : float) :
  (a <=? b)%float = true -> (b <? c)%float = true -> (a <? c)%float = true.
Proof. rewrite !leb_spec, !ltb_spec. apply SFleb_ltb_trans. Qed.

Lemma ltb_leb (a b : float) : (a <? b)%float = true -> (a <=? b)%float = true.
Proof. rewrite leb_spec, ltb_spec. apply SFltb_leb. Qed.

Lemma not_leb_ltb (a b : float) :
  is_nan a = false -> is_nan b = false ->
  (a <=? b)%float = false -> (b <? a)%float = true.
Proof.
  rewrite !is_nan_spec, leb_spec, ltb_spec. apply SFleb_false.
Qed.

Lemma ltb_irrefl (a : float) : (a <? a)%float = false.
Proof.
  rewrite ltb_spec. unfold SFltb.
  destruct (Prim2SF a) as [s|s| |s m e] eqn:E; try reflexivity;
    rewrite SFcompare_refl; congruence.
Qed.

(** ** Indexing *)

Lemma getitem_nth {A : Type} (a : list A) (i : Z) (v : A) :
  0 <= i -> nth_error a (Z.to_nat i) = Some v -> getitem a i = Returns v.
Proof.
  intros Hi Hv. unfold getitem.
  assert (i < len a) as Hlt.
  { unfold len. assert (nth_error a (Z.to_nat i) <> None) as Hs by congruence.
    apply nth_error_Some in Hs. lia. }
  pose proof (len_nonneg a).
  destruct (Z.ltb_spec i (- len a)); [lia|].
  destruct (Z.leb_spec (len a) i); [lia|]. cbn [orb].
  destruct (Z.ltb_spec i 0); [lia|]. now rewrite Hv.
Qed.

Lemma getitem_inv {A : Type} (a : list A) (i : Z) (v : A) :
  getitem a i = Returns v ->
  in_bounds (len a) i /\
  nth_error a (Z.to_nat (if i <? 0 then i + len a else i)) = Some v.
Proof.
  unfold getitem, in_bounds.
  destruct (Z.ltb_spec i (- len a)); [discriminate|].
  destruct (Z.leb_spec (len a) i); [discriminate|]. cbn [orb].
  destruct (nth_error a _) eqn:E; [|discriminate].
  intros [= ->]. split; [lia | reflexivity].
Qed.

Lemma getitem_in {A : Type} (a : list A) (i : Z) (v : A) :
  getitem a i = Returns v -> In v a.
Proof. intros H. apply getitem_inv in H. eapply nth_error_In, H. Qed.

Lemma getitem_defined {A : Type} (a : list A) (i : Z) :
  in_bounds (len a) i -> exists v, getitem a i = Returns v.
Proof.
  unfold getitem, in_bounds. intros Hi.
  destruct (Z.ltb_spec i (- len a)); [lia|].
  destruct (Z.leb_spec (len a) i); [lia|]. cbn [orb].
  destruct (nth_error a _) eqn:E; [eauto|].
  apply nth_error_None in E. unfold len in *.
  destruct (Z.ltb_spec i 0); lia.
Qed.

Lemma getitem_last {A : Type} (a : list A) (v : A) :
  getitem (a ++ [v]) (-1) = Returns v.
Proof.
  unfold getitem. rewrite len_app. change (len [v]) with 1.
  pose proof (len_nonneg a).
  destruct (Z.ltb_spec (-1) (- (len a + 1))); [lia|].
  destruct (Z.leb_spec (len a + 1) (-1)); [lia|]. cbn [orb].
  change (-1 <? 0) with true. cbv iota.
  replace (Z.to_nat (-1 + (len a + 1))) with (length a) by (unfold len; lia).
  rewrite nth_error_app2 by lia. now rewrite Nat.sub_diag.
Qed.

Lemma drop_last_app {A : Type} (a : list A) (v : A) : drop_last (a ++ [v]) = a.
Proof. apply removelast_last. Qed.

Lemma take_defined {A : Type} (a : list A) (idx : list Z) :
  Forall (in_bounds (len a)) idx <-> exists vs, take a idx = Returns vs.
Proof.
  induction idx as [|i idx IH]; simpl.
  - split; [eauto | constructor].
  - split.
    + intros H. inversion H as [|? ? Hi Hrest]; subst.
      destruct (getitem_defined a i Hi) as [v ->].
      apply IH in Hrest. destruct Hrest as [vs ->]. simpl. eauto.
    + intros [vs H]. destruct (getitem a i) eqn:Ei; try discriminate.
      simpl in H. destruct (take a idx) eqn:Et; try discriminate.
      constructor; [eapply getitem_inv, Ei | apply IH; eauto].
Qed.

Lemma take_permutation {A : Type} (a : list A) (idx idx' : list Z) (vs : list A) :
  Permutation idx idx' -> take a idx = Returns vs ->
  exists vs', take a idx' = Returns vs'.
Proof.
  intros Hp Ht. apply take_defined.
  apply (Permutation_Forall Hp). apply take_defined. eauto.
Qed.

Lemma getitem_outcome {A : Type} (a : list A) (i : Z) :
  (exists v, getitem a i = Returns v) \/ getitem a i = Raises IndexError.
Proof.
  unfold getitem. destruct ((i <? - len a) || (len a <=? i)); [now right|].
  destruct (nth_error a _); [left; eauto | now right].
Qed.

Lemma take_outcome {A : Type} (a : list A) (idx : list Z) :
  (exists vs, take a idx = Returns vs) \/ take a idx = Raises IndexError.
Proof.
  induction idx as [|i idx IH]; cbn [take]; [left; eauto|].
  destruct (getitem_outcome a i) as [[v ->]| ->]; [|now right]. cbn [bind].
  destruct IH as [[vs ->]| ->]; [left; cbn; eauto | now right].
Qed.

Lemma zero_not_positive (v : float) :
  (v =? 0)%float = true -> (0 <? v)%float = false.
Proof.
  rewrite eqb_spec, ltb_spec. change (Prim2SF 0) with (S754_zero false).
  unfold SFeqb, SFltb, SFcompare.
  destruct (Prim2SF v) as [s|s| |s m e]; try reflexivity; destruct s; discriminate.
Qed.

(** Rounding does not look at the sign. *)
Lemma SFabs_binary_round (s : bool) (m : positive) (e : Z) :
  SFabs (binary_round prec emax s m e) = SFabs (binary_round prec emax false m e).
Proof.
  unfold binary_round, binary_round_aux.
  destruct (shl_align m e _) as [mz ez].
  destruct (shr_fexp prec emax (Z.pos mz) ez loc_Exact) as [mrs e1].
  destruct (shr_fexp prec emax _ e1 loc_Exact) as [mrs2 e2].
  destruct (shr_m mrs2); [reflexivity| |reflexivity].
  destruct (e2 <=? emax - prec); reflexivity.
Qed.

Lemma SFabs_binary_normalize_opp (m e : Z) :
  SFabs (binary_normalize prec emax (- m) e false)
  = SFabs (binary_normalize prec emax m e false).
Proof.
  destruct m as [|p|p]; cbn [Z.opp binary_normalize]; [reflexivity| |];
    [rewrite SFabs_binary_round | rewrite (SFabs_binary_round true)]; reflexivity.
Qed.

Lemma SFabs_sub_sym (a b : spec_float) :
  SFabs (SF64sub a b) = SFabs (SF64sub b a).
Proof.
  unfold SF64sub, SFsub.
  destruct a as [[]|[]| |sa ma ea], b as [[]|[]| |sb mb eb]; try reflexivity.
  rewrite (Z.min_comm eb ea).
  rewrite <- SFabs_binary_normalize_opp. f_equal. f_equal. lia.
Qed.

Lemma abs_sub_sym (a b : float) : PrimFloat.abs (a - b) = PrimFloat.abs (b - a).
Proof.
  apply Prim2SF_inj. rewrite !abs_spec, !sub_spec. apply SFabs_sub_sym.
Qed.

(** ** The largest entry *)

Lemma is_nan_abs (v : float) : is_nan (PrimFloat.abs v) = is_nan v.
Proof.
  destruct (is_nan v) eqn:H.
  - destruct (is_nan (PrimFloat.abs v)) eqn:H'; [reflexivity|].
    apply is_nan_spec in H'. rewrite abs_spec in H'.
    assert (Prim2SF v <> S754_nan) as K.
    { intros E. rewrite E in H'. now apply H'. }
    apply is_nan_spec in K. congruence.
  - apply is_nan_spec. apply is_nan_spec in H. rewrite abs_spec.
    destruct (Prim2SF v); cbn; congruence.
Qed.

Lemma no_nan_abs (y : list float) : no_nan (np.abs y) = no_nan y.
Proof.
  unfold no_nan, np.abs. induction y as [|v y IH]; [reflexivity|].
  cbn [map forallb]. now rewrite is_nan_abs, IH.
Qed.

Lemma maximum_either (a b : float) : np.maximum a b = a \/ np.maximum a b = b.
Proof. unfold np.maximum. destruct ((b <=? a)%float || is_nan a); auto. Qed.

Lemma maximum_fold_in (rest : list float) (v : float) :
  In (fold_left np.maximum rest v) (v :: rest).
Proof.
  revert v. induction rest as [|a rest IH]; intros v; [now left|].
  cbn [fold_left]. destruct (IH (np.maximum v a)) as [H|H]; [|right; right; exact H].
  destruct (maximum_either v a) as [E|E]; rewrite E in H at 1;
    [left | right; left]; exact H.
Qed.

Lemma maximum_fold_upper (rest : list float) (v : float) :
  is_nan v = false -> no_nan rest = true ->
  is_nan (fold_left np.maximum rest v) = false
  /\ (v <=? fold_left np.maximum rest v)%float = true
  /\ Forall (fun w => (w <=? fold_left np.maximum rest v)%float = true) rest.
Proof.
  revert v. induction rest as [|a rest IH]; intros v Hv Hrest.
  - cbn [fold_left]. split; [exact Hv|]. split; [now apply leb_refl | constructor].
  - unfold no_nan in Hrest. cbn [forallb] in Hrest.
    apply andb_true_iff in Hrest as [Ha Hrest]. apply negb_true_iff in Ha.
    cbn [fold_left].
    assert (np.maximum v a = if (a <=? v)%float then v else a) as ->
        by (unfold np.maximum; now rewrite Hv, orb_false_r).
    destruct (a <=? v)%float eqn:Hav.
    + destruct (IH v Hv Hrest) as (Hn & Hle & Hall).
      split; [exact Hn|]. split; [exact Hle|]. constructor; [|exact Hall].
      now apply (leb_trans a v).
    + destruct (IH a Ha Hrest) as (Hn & Hle & Hall).
      split; [exact Hn|]. split; [|constructor; [exact Hle | exact Hall]].
      apply (leb_trans v a); [|exact Hle]. apply ltb_leb. now apply not_leb_ltb.
Qed.

(** [np.max] returns an entry of the array, and, when no entry is a NaN, one
    that no entry exceeds. *)
Lemma max_is_maximum (a : list float) (m : float) :
  np.max a = Returns m ->
  In m a /\ (no_nan a = true -> Forall (fun v => (v <=? m)%float = true) a).
Proof.
  destruct a as [|v rest]; [discriminate|]. cbn [np.max]. intros [= <-].
  split; [apply maximum_fold_in|].
  intros H. unfold no_nan in H. cbn [forallb] in H.
  apply andb_true_iff in H as [Hv Hrest]. apply negb_true_iff in Hv.
  destruct (maximum_fold_upper rest v Hv Hrest) as (_ & Hle & Hall).
  constructor; assumption.
Qed.

(** ** [np.argmax] *)

Lemma no_nan_in (a : list float) (v : float) :
  no_nan a = true -> In v a -> is_nan v = false.
Proof.
  unfold no_nan. rewrite forallb_forall. intros H Hv.
  apply H in Hv. now apply negb_true_iff in Hv.
Qed.

Lemma argmax_scan_bounds (rest : list float) (mp : float) (max_ind i : Z) :
  0 <= max_ind < i ->
  0 <= np.argmax_scan mp max_ind i rest < i + len rest.
Proof.
  revert mp max_ind i. induction rest as [|v rest IH]; intros mp max_ind i Hi; simpl.
  - change (len (@nil float)) with 0. lia.
  - change (len (v :: rest)) with (len ([v] ++ rest)). rewrite len_app.
    change (len [v]) with 1. pose proof (len_nonneg rest).
    destruct (negb (v <=? mp)%float).
    + destruct (is_nan v); [lia|].
      specialize (IH v i (i + 1) ltac:(lia)). lia.
    + specialize (IH mp max_ind (i + 1) ltac:(lia)). lia.
Qed.

Lemma argmax_bounds (a : list float) (imax : Z) :
  np.argmax a = Returns imax -> 0 <= imax < len a.
Proof.
  destruct a as [|v rest]; [discriminate|]. simpl. intros [= <-].
  change (len (v :: rest)) with (len ([v] ++ rest)). rewrite len_app.
  change (len [v]) with 1. pose proof (len_nonneg rest).
  destruct (is_nan v); [lia|].
  pose proof (argmax_scan_bounds rest v 0 1 ltac:(lia)). lia.
Qed.


Lemma argmax_scan_first_maximum (rest pre : list float) (mp : float) (max_ind : Z) :
  no_nan (pre ++ rest) = true ->
  0 <= max_ind ->
  nth_error pre (Z.to_nat max_ind) = Some mp ->
  (forall v, In v pre -> (v <=? mp)%float = true) ->
  (forall j v, (j < Z.to_nat max_ind)%nat -> nth_error pre j = Some v ->
               (v <? mp)%float = true) ->
  first_maximum (pre ++ rest) (Z.to_nat (np.argmax_scan mp max_ind (len pre) rest)).
Proof.
  revert pre mp max_ind.
  induction rest as [|v rest IH]; intros pre mp max_ind Hnan Hm Hmp Hle Hlt.
  - simpl. rewrite app_nil_r. exists mp. auto.
  - assert (nth_error pre (Z.to_nat max_ind) <> None) as Hlen by congruence.
    apply nth_error_Some in Hlen.
    assert (is_nan v = false) as Hv
        by (apply (no_nan_in _ _ Hnan), in_or_app; right; now left).
    assert (is_nan mp = false) as Hmpn
        by (apply (no_nan_in _ _ Hnan), in_or_app; left; eapply nth_error_In, Hmp).
    replace (pre ++ v :: rest) with ((pre ++ [v]) ++ rest) in *
      by (now rewrite <- app_assoc).
    simpl. rewrite Hv.
    replace (len pre + 1) with (len (pre ++ [v])) by (now rewrite len_app).
    destruct (v <=? mp)%float eqn:Hvm; simpl.
    + apply (IH (pre ++ [v]) mp max_ind Hnan Hm).
      * now rewrite nth_error_app1.
      * intros u Hu. apply in_app_or in Hu.
        destruct Hu as [Hu|[<-|[]]]; [now apply Hle | exact Hvm].
      * intros j u Hj Hu. rewrite nth_error_app1 in Hu by lia. now apply (Hlt j).
    + apply not_leb_ltb in Hvm; [|assumption|assumption].
      replace (len pre) with (Z.of_nat (length pre)) at 1 by reflexivity.
      apply (IH (pre ++ [v]) v (Z.of_nat (length pre)) Hnan); [lia| | |].
      * rewrite Nat2Z.id, nth_error_app2, Nat.sub_diag by lia. reflexivity.
      * intros u Hu. apply in_app_or in Hu.
        destruct Hu as [Hu|[<-|[]]]; [|now apply leb_refl].
        apply ltb_leb. eapply leb_ltb_trans; [apply Hle, Hu | exact Hvm].
      * intros j u Hj Hu. rewrite Nat2Z.id in Hj.
        rewrite nth_error_app1 in Hu by lia.
        eapply leb_ltb_trans; [eapply Hle, nth_error_In, Hu | exact Hvm].
Qed.

Lemma argmax_first_maximum (a : list float) (imax : Z) :
  np.argmax a = Returns imax -> no_nan a = true ->
  first_maximum a (Z.to_nat imax).
Proof.
  destruct a as [|v rest]; [discriminate|]. unfold np.argmax. intros [= <-] Hnan.
  assert (is_nan v = false) as Hv by (apply (no_nan_in _ _ Hnan); now left).
  rewrite Hv.
  apply (argmax_scan_first_maximum rest [v] v 0 Hnan); [lia|reflexivity| |].
  - intros u [<-|[]]. now apply leb_refl.
  - intros j u Hj. simpl in Hj. lia.
Qed.

(** The same in terms of [a[j]]. *)
Lemma argmax_is_first_maximum (a : list float) (imax : Z) :
  np.argmax a = Returns imax -> no_nan a = true ->
  exists e, getitem a imax = Returns e
  /\ (forall j v, getitem a j = Returns v -> (v <=? e)%float = true)
  /\ (forall j v, 0 <= j < imax -> getitem a j = Returns v -> (v <? e)%float = true).
Proof.
  intros Ha Hnan. pose proof (argmax_bounds a imax Ha) as Hb.
  destruct (argmax_first_maximum a imax Ha Hnan) as (e & He & Hle & Hlt).
  exists e. split; [|split].
  - apply getitem_nth; [lia | exact He].
  - intros j v Hj. apply Hle. eapply getitem_in, Hj.
  - intros j v Hj Hv. apply getitem_inv in Hv. destruct Hv as [_ Hv].
    destruct (Z.ltb_spec j 0); [lia|]. apply (Hlt (Z.to_nat j)); [lia | exact Hv].
Qed.

(** ** The loop of [_greedy] *)

Section LoopFacts.

Variable UnivariateSpline : fitter.
Variables x y : list float.
Variable deg : Z.
Variable _tol : float.

Local Abbreviation errs_on := (fit_errors UnivariateSpline x y deg).
Local Abbreviation worst_on := (worst UnivariateSpline x y deg).
Local Abbreviation pass := (body UnivariateSpline x y deg _tol).
Local Abbreviation loop := (while UnivariateSpline x y deg _tol).
Local Abbreviation reach := (visits UnivariateSpline x y deg _tol).

Lemma body_worst (st : loop_state) :
  pass st =
  (p <- worst_on (indices st) ;;
   if (snd p <? _tol)%float then Returns (trimmed st)
   else Returns (grown st (fst p) (snd p))).
Proof.
  unfold body, worst, trimmed, grown.
  destruct errs_on as [errs|ex|]; try reflexivity. cbn [bind].
  destruct (np.argmax errs) as [imax|ex|]; try reflexivity. cbn [bind].
  destruct (getitem errs imax) as [e|ex|]; try reflexivity. cbn [bind fst snd].
  rewrite getitem_last. cbn [bind].
  unfold np.hstack. cbn [concat]. rewrite !app_nil_r, !drop_last_app.
  reflexivity.
Qed.

Lemma body_inv (st st' : loop_state) :
  pass st = Returns st' ->
  exists imax e,
    worst_on (indices st) = Returns (imax, e)
    /\ st' = if (e <? _tol)%float then trimmed st else grown st imax e.
Proof.
  rewrite body_worst. destruct (worst_on (indices st)) as [[imax e]|ex|]; try discriminate.
  cbn [bind fst snd]. intros H. exists imax, e. split; [reflexivity|].
  destruct (e <? _tol)%float; now inversion H.
Qed.

Lemma abs_errors_defined (s : interpolant) :
  len x = len y ->
  exists errs, abs_errors s x y = Returns errs /\ len errs = len x.
Proof.
  intros Hxy. unfold abs_errors, np.sub, call. rewrite len_map, Hxy, Z.eqb_refl.
  cbn [bind]. eexists. split; [reflexivity|].
  unfold np.abs. rewrite !len_map. unfold len in *.
  rewrite length_combine, length_map. lia.
Qed.


Lemma fit_errors_len (idx : list Z) (errs : list float) :
  errs_on idx = Returns errs -> len x = len y -> len errs = len x.
Proof.
  unfold fit_errors. intros H Hxy.
  destruct (take x idx) as [xs|ex|]; try discriminate. cbn [bind] in H.
  destruct (take y idx) as [ys|ex|]; try discriminate. cbn [bind] in H.
  destruct (UnivariateSpline xs ys deg) as [ex|s]; try discriminate. cbn [lift bind] in H.
  destruct (abs_errors_defined s Hxy) as (errs' & He & Hlen). congruence.
Qed.


Lemma worst_inv (idx : list Z) (imax : Z) (e : float) :
  worst_on idx = Returns (imax, e) ->
  exists errs, errs_on idx = Returns errs
    /\ np.argmax errs = Returns imax /\ getitem errs imax = Returns e.
Proof.
  unfold worst.
  destruct (errs_on idx) as [errs|ex|]; try discriminate. cbn [bind].
  destruct (np.argmax errs) as [i|ex|] eqn:Ha; try discriminate. cbn [bind].
  destruct (getitem errs i) as [v|ex|] eqn:Hg; try discriminate. cbn [bind].
  intros [= <- <-]. exists errs. auto.
Qed.

Lemma fit_errors_inv (idx : list Z) (errs : list float) :
  errs_on idx = Returns errs -> Forall (in_bounds (len x)) idx.
Proof.
  unfold fit_errors. intros H. apply take_defined.
  destruct (take x idx); try discriminate. eauto.
Qed.






Lemma visits_trans (st0 st1 st2 : loop_state) :
  reach st0 st1 -> reach st1 st2 -> reach st0 st2.
Proof.
  intros H01 H12. induction H12 as [|st st' _ IH Hf Hc Hb]; [exact H01|].
  eapply visits_next; eauto.
Qed.

Lemma while_more_fuel (fuel fuel' : nat) (st r : loop_state) :
  loop fuel st = Returns r -> (fuel <= fuel')%nat -> loop fuel' st = Returns r.
Proof.
  revert fuel' st. induction fuel as [|fuel IH]; intros fuel' st H Hle; [discriminate|].
  destruct fuel' as [|fuel']; [lia|]. cbn [while] in *.
  destruct ((flag st =? 0) && (ctr st <? len x)); [|exact H].
  destruct (pass st) as [st'|ex|]; try discriminate. cbn [bind] in *.
  apply IH; [exact H | lia].
Qed.

Lemma while_deterministic (fuel fuel' : nat) (st r r' : loop_state) :
  loop fuel st = Returns r -> loop fuel' st = Returns r' -> r = r'.
Proof.
  intros H H'.
  apply (while_more_fuel _ (Nat.max fuel fuel')) in H; [|lia].
  apply (while_more_fuel _ (Nat.max fuel fuel')) in H'; [|lia].
  congruence.
Qed.

Lemma guard_true (st : loop_state) :
  (flag st =? 0) && (ctr st <? len x) = true <-> flag st = 0 /\ ctr st < len x.
Proof. rewrite andb_true_iff, Z.eqb_eq, Z.ltb_lt. reflexivity. Qed.

Lemma guard_false (st : loop_state) :
  (flag st =? 0) && (ctr st <? len x) = false <-> flag st <> 0 \/ len x <= ctr st.
Proof. rewrite andb_false_iff, Z.eqb_neq, Z.ltb_ge. reflexivity. Qed.

Lemma visits_while (st0 st r : loop_state) (fuel : nat) :
  reach st0 st -> loop fuel st = Returns r ->
  exists fuel0, loop fuel0 st0 = Returns r.
Proof.
  intros Hv. revert fuel. induction Hv as [|st st' _ IH Hf Hc Hb]; intros fuel H.
  - eauto.
  - apply (IH (S fuel)). cbn [while].
    rewrite (proj2 (guard_true st) (conj Hf Hc)), Hb. exact H.
Qed.




Lemma fit_errors_takes (idx : list Z) (errs : list float) :
  errs_on idx = Returns errs ->
  exists xs ys s,
    take x idx = Returns xs /\ take y idx = Returns ys
    /\ UnivariateSpline xs ys deg = inr s
    /\ abs_errors s x y = Returns errs.
Proof.
  unfold fit_errors. intros H.
  destruct (take x idx) as [xs|ex|] eqn:Hx; try discriminate. cbn [bind] in H.
  destruct (take y idx) as [ys|ex|] eqn:Hy; try discriminate. cbn [bind] in H.
  destruct (UnivariateSpline xs ys deg) as [ex|s] eqn:Hs; try discriminate.
  cbn [lift bind] in H.
  exists xs, ys, s. auto.
Qed.

Lemma visits_last (st0 st : loop_state) :
  reach st0 st ->
  st = st0 \/
  exists prev imax e,
    reach st0 prev /\ flag prev = 0 /\ ctr prev < len x
    /\ worst_on (indices prev) = Returns (imax, e)
    /\ st = if (e <? _tol)%float then trimmed prev else grown prev imax e.
Proof.
  intros Hv. destruct Hv as [|prev st Hv Hf Hc Hb]; [now left|right].
  destruct (body_inv prev st Hb) as (imax & e & Hw & Hst).
  exists prev, imax, e. auto.
Qed.

(** A raised flag is the mark of a pass whose worst error was below the
    threshold. *)
Lemma visits_converged (st0 st : loop_state) :
  reach st0 st -> flag st0 = 0 -> flag st <> 0 ->
  exists prev imax e,
    reach st0 prev /\ flag prev = 0 /\ ctr prev < len x
    /\ worst_on (indices prev) = Returns (imax, e)
    /\ (e <? _tol)%float = true
    /\ st = trimmed prev.
Proof.
  intros Hv H0 Hf. destruct (visits_last st0 st Hv) as [->|(prev & imax & e & Hp & Hfp & Hc & Hw & Hst)].
  - contradiction.
  - exists prev, imax, e. destruct (e <? _tol)%float eqn:E.
    + auto 10.
    + subst st. cbn [grown flag] in Hf. contradiction.
Qed.



Lemma visits_counter (st0 st : loop_state) :
  reach st0 st -> ctr st0 = len (indices st0) + 1 ->
  flag st = 0 -> ctr st = len (indices st) + 1.
Proof.
  intros Hv Hc0. induction Hv as [|st st' _ IH Hf _ Hb]; intros Hf'; [exact Hc0|].
  destruct (body_inv st st' Hb) as (imax & e & _ & ->).
  destruct (e <? _tol)%float; [discriminate Hf'|].
  cbn [grown ctr indices]. rewrite len_sort, len_app, (IH Hf). reflexivity.
Qed.


Lemma body_same_knots (st st' : loop_state) :
  same_knots st -> pass st = Returns st' -> same_knots st'.
Proof.
  intros [Hl Hp] Hb. destruct (body_inv st st' Hb) as (imax & e & _ & ->).
  unfold same_knots.
  destruct (e <? _tol)%float; cbn [trimmed grown indices args].
  - split; [apply len_sort | apply sort_Permutation].
  - split.
    + rewrite len_sort, !len_app. lia.
    + rewrite <- sort_Permutation. now apply Permutation_app_tail.
Qed.

Lemma visits_same_knots (st0 st : loop_state) :
  reach st0 st -> same_knots st0 -> same_knots st.
Proof.
  intros Hv H0. induction Hv as [|st st' _ IH _ _ Hb]; [exact H0|].
  eapply body_same_knots; eauto.
Qed.

Lemma visits_ascending (st0 st : loop_state) :
  reach st0 st -> ascending (indices st0) -> ascending (indices st).
Proof.
  intros Hv H0. destruct (visits_last st0 st Hv) as [->|(prev & imax & e & _ & _ & _ & _ & ->)];
    [exact H0|].
  destruct (e <? _tol)%float; cbn [trimmed grown indices]; apply sort_ascending.
Qed.

(** After a pass the knots are sorted, whatever the seeds were. *)
Lemma visits_sorted (st0 st : loop_state) :
  reach st0 st -> st = st0 \/ ascending (indices st).
Proof.
  intros Hv. destruct (visits_last st0 st Hv) as [->|(prev & imax & e & _ & _ & _ & _ & ->)];
    [now left|].
  right. destruct (e <? _tol)%float; cbn [trimmed grown indices]; apply sort_ascending.
Qed.

(** A knot is selected a second time only where the error vector does not
    vanish on the knots or the selected error is not positive. *)
Lemma visits_NoDup (st0 st : loop_state) :
  reach st0 st ->
  same_knots st0 -> NoDup (indices st0) ->
  Forall (fun e => (0 <? e)%float = true) (errors st) ->
  (forall st1 errs i,
      reach st0 st1 -> errs_on (indices st1) = Returns errs ->
      In i (indices st1) -> getitem errs i = Returns 0%float) ->
  NoDup (indices st).
Proof.
  intros Hv Hsame H0 Hpos Hknots.
  induction Hv as [|st st' Hv IH Hf Hc Hb]; [exact H0|].
  pose proof (visits_same_knots st0 st Hv Hsame) as [_ Hperm].
  destruct (body_inv st st' Hb) as (imax & e & Hw & ->).
  destruct (e <? _tol)%float; cbn [trimmed grown indices errors] in *.
  - apply (Permutation_NoDup (sort_Permutation _)).
    apply (Permutation_NoDup (Permutation_sym Hperm)). now apply IH.
  - apply Forall_app in Hpos. destruct Hpos as [Hpos He].
    apply (Permutation_NoDup (sort_Permutation _)).
    apply (Permutation_NoDup (Permutation_cons_append _ _)).
    constructor; [|now apply IH].
    intros Hin. destruct (worst_inv _ _ _ Hw) as (errs & Hfit & _ & Hget).
    rewrite (Hknots st errs imax Hv Hfit Hin) in Hget. injection Hget as <-.
    inversion He as [|? ? He0 _]; subst. rewrite ltb_irrefl in He0. discriminate.
Qed.

End LoopFacts.

(** ** [_greedy] and the class *)

Section GreedyFacts.

Variable UnivariateSpline : fitter.

Local Abbreviation run_greedy := (_greedy UnivariateSpline).
Local Abbreviation loop := (while UnivariateSpline).
Local Abbreviation reach := (visits UnivariateSpline).
Local Abbreviation worst_on := (worst UnivariateSpline).
Local Abbreviation pass := (body UnivariateSpline).
Local Abbreviation final := (deliver UnivariateSpline).

Lemma seeded_same_knots (x : list float) (deg : Z) (seeds : option (list Z)) :
  same_knots (seeded x deg seeds).
Proof. split; reflexivity. Qed.


Lemma greedy_of_loop (fuel : nat) (x y : list float) (tol : float) (rel : bool)
  (deg : Z) (seeds : option (list Z)) (ymax : float) (st : loop_state) :
  scale y rel = Returns ymax ->
  loop x y deg (tol * ymax)%float fuel (seeded x deg seeds) = Returns st ->
  run_greedy fuel x y tol rel deg seeds = final x y deg (tol * ymax)%float st.
Proof.
  intros Hs Hl. unfold _greedy. rewrite Hs. cbn [bind]. rewrite Hl. reflexivity.
Qed.

Lemma deliver_returns (x y : list float) (deg : Z) (_tol : float) (st : loop_state)
  (xs ys : list float) (s : interpolant) :
  take x (indices st) = Returns xs ->
  take y (indices st) = Returns ys ->
  UnivariateSpline xs ys deg = inr s ->
  final x y deg _tol st =
  Returns {| r_spline := s; r_indices := indices st; r_args := args st;
             r_errors := errors st; r_tol := _tol |}.
Proof.
  intros Hx Hy Hs. unfold deliver. rewrite Hx, Hy. cbn [bind]. rewrite Hs. reflexivity.
Qed.

Lemma deliver_inv (x y : list float) (deg : Z) (_tol : float) (st : loop_state)
  (r : greedy_result) :
  final x y deg _tol st = Returns r ->
  exists xs ys s,
    take x (indices st) = Returns xs /\ take y (indices st) = Returns ys
    /\ UnivariateSpline xs ys deg = inr s
    /\ r = {| r_spline := s; r_indices := indices st; r_args := args st;
              r_errors := errors st; r_tol := _tol |}.
Proof.
  unfold deliver.
  destruct (take x _) as [xs|ex|] eqn:Hx; try discriminate. cbn [bind].
  destruct (take y _) as [ys|ex|] eqn:Hy; try discriminate. cbn [bind].
  destruct (UnivariateSpline xs ys deg) as [ex|s] eqn:Hs; try discriminate.
  cbn [lift bind]. intros [= <-]. exists xs, ys, s. auto.
Qed.


Lemma greedy_inv (fuel : nat) (x y : list float) (tol : float) (rel : bool)
  (deg : Z) (seeds : option (list Z)) (r : greedy_result) :
  run_greedy fuel x y tol rel deg seeds = Returns r ->
  exists ymax st,
    scale y rel = Returns ymax
    /\ loop x y deg (tol * ymax)%float fuel (seeded x deg seeds) = Returns st
    /\ final x y deg (tol * ymax)%float st = Returns r
    /\ r_indices r = indices st /\ r_args r = args st
    /\ r_errors r = errors st /\ r_tol r = (tol * ymax)%float.
Proof.
  unfold _greedy. destruct (scale y rel) as [ymax|ex|]; try discriminate. cbn [bind].
  destruct (loop _ _ _ _ _ _) as [st|ex|] eqn:Hl; try discriminate. cbn [bind].
  intros Hr. change (final x y deg (tol * ymax)%float st = Returns r) in Hr.
  destruct (deliver_inv _ _ _ _ _ _ Hr) as (xs & ys & s & _ & _ & _ & ->).
  exists ymax, st. cbn. auto 10.
Qed.

(** What the method [greedy] stores. *)
Lemma greedy_method_inv (fuel : nat) (self self' : ReducedOrderSpline)
  (x y : list float) (tol : float) (rel : bool) (deg : Z) (seeds : option (list Z)) :
  greedy UnivariateSpline fuel self x y tol rel deg seeds = Returns self' ->
  exists r,
    run_greedy fuel x y tol rel deg seeds = Returns r
    /\ self_indices self' = Some (r_indices r)
    /\ self_args self' = Some (r_args r)
    /\ self_errors self' = Some (r_errors r)
    /\ self_tol self' = Some (r_tol r)
    /\ self_size self' = Some (len (r_indices r))
    /\ self_made self' = true.
Proof.
  unfold greedy. destruct (scale y rel) as [ymax|ex|]; try discriminate. cbn [bind].
  destruct (run_greedy _ _ _ _ _ _ _) as [r|ex|] eqn:Hr; try discriminate. cbn [bind].
  destruct (take x _) as [X|ex|]; try discriminate. cbn [bind].
  destruct (take y _) as [Y|ex|]; try discriminate. cbn [bind].
  destruct (len (r_indices r) =? 0); try discriminate. cbn [bind].
  intros [= <-]. exists r. cbn. auto 10.
Qed.





(** C1.  Let the loop stand at a state [st] it reaches from the seeds, with
    the flag down and [ctr < len x], and let the worst error [e] of the
    spline on the knots of [st] be strictly below the effective tolerance.
    Then the pass ends in [trimmed st]: the flag is raised, so the loop
    stops there, and the index and the error the pass appended are dropped
    again, so [args] and the trace are those of [st] and [indices] is
    [args] sorted: the knots of [st], in the same order once the seeds were
    ascending.  [_greedy] is then its final fit on exactly these; when the
    seeds were ascending or [st] is not the seeded state, this is the fit
    that the pass made, so it returns and [_greedy] returns them.  The
    method [greedy] stores them with [size = len(indices)]. *)
Theorem convergence_trim (x y : list float) (tol : float) (rel : bool) (deg : Z)
  (seeds : option (list Z)) (ymax : float) (st : loop_state) (imax : Z) (e : float) :
  scale y rel = Returns ymax ->
  reach x y deg (tol * ymax)%float (seeded x deg seeds) st ->
  flag st = 0 -> ctr st < len x ->
  worst_on x y deg (indices st) = Returns (imax, e) ->
  (e <? tol * ymax)%float = true ->
  pass x y deg (tol * ymax)%float st = Returns (trimmed st)
  /\ (forall fuel, loop x y deg (tol * ymax)%float (S fuel) (trimmed st)
                   = Returns (trimmed st))
  /\ Permutation (indices (trimmed st)) (indices st)
  /\ (ascending (fst (_seed x deg seeds)) -> indices (trimmed st) = indices st)
  /\ exists fuel0,
      (forall fuel, (fuel0 <= fuel)%nat ->
                    run_greedy fuel x y tol rel deg seeds
                    = final x y deg (tol * ymax)%float (trimmed st))
      /\ (ascending (fst (_seed x deg seeds)) \/ st <> seeded x deg seeds ->
          exists r,
            final x y deg (tol * ymax)%float (trimmed st) = Returns r
            /\ r_indices r = indices (trimmed st)
            /\ r_args r = args st
            /\ r_errors r = errors st)
      /\ (forall fuel self self',
             (fuel0 <= fuel)%nat ->
             greedy UnivariateSpline fuel self x y tol rel deg seeds = Returns self' ->
             self_indices self' = Some (indices (trimmed st))
             /\ self_args self' = Some (args st)
             /\ self_errors self' = Some (errors st)
             /\ self_size self' = Some (len (indices (trimmed st)))).
Proof.
  intros Hscale Hv Hf Hc Hw He.
  set (_tol := (tol * ymax)%float) in *. set (st0 := seeded x deg seeds) in *.
  assert (pass x y deg _tol st = Returns (trimmed st)) as Hpass.
  { rewrite body_worst, Hw. cbn [bind fst snd]. now rewrite He. }
  destruct (visits_same_knots UnivariateSpline x y deg _tol st0 st Hv
              (seeded_same_knots x deg seeds)) as [_ Hperm].
  assert (Permutation (indices (trimmed st)) (indices st)) as Hperm'.
  { cbn [trimmed indices]. now rewrite <- sort_Permutation. }
  split; [exact Hpass|]. split.
  { intros fuel. cbn [while].
    rewrite (proj2 (guard_false x (trimmed st))); [reflexivity|].
    left. cbn [trimmed flag]. lia. }
  split; [exact Hperm'|]. split.
  { intros Hasc. cbn [trimmed indices]. apply sort_of_permutation; [|exact Hperm].
    apply (visits_ascending UnivariateSpline x y deg _tol st0 st Hv Hasc). }
  assert (loop x y deg _tol 2 st = Returns (trimmed st)) as Hloop.
  { cbn [while]. rewrite (proj2 (guard_true x st) (conj Hf Hc)), Hpass. cbn [bind].
    rewrite (proj2 (guard_false x (trimmed st))); [reflexivity|].
    left. cbn [trimmed flag]. lia. }
  destruct (visits_while UnivariateSpline x y deg _tol st0 st (trimmed st) 2 Hv Hloop)
    as [fuel0 Hrun].
  assert (forall fuel, (fuel0 <= fuel)%nat ->
            run_greedy fuel x y tol rel deg seeds = final x y deg _tol (trimmed st))
    as Hgreedy.
  { intros fuel Hfuel. apply (greedy_of_loop fuel x y tol rel deg seeds ymax); [exact Hscale|].
    eapply while_more_fuel; [exact Hrun | exact Hfuel]. }
  exists fuel0. split; [exact Hgreedy|]. split.
  - intros Hcase.
    assert (ascending (indices st)) as Hasc.
    { destruct Hcase as [Hseeds|Hne].
      - apply (visits_ascending UnivariateSpline x y deg _tol st0 st Hv Hseeds).
      - destruct (visits_sorted UnivariateSpline x y deg _tol st0 st Hv) as [E|Hs];
          [contradiction | exact Hs]. }
    destruct (worst_inv UnivariateSpline x y deg _ _ _ Hw) as (errs & Hfit & _ & _).
    destruct (fit_errors_takes UnivariateSpline x y deg _ _ Hfit)
      as (xs & ys & s & Hxs & Hys & Hs & _).
    assert (indices (trimmed st) = indices st) as Hsame
        by (cbn [trimmed indices]; now apply sort_of_permutation).
    eexists. split.
    + apply (deliver_returns x y deg _tol (trimmed st) xs ys s);
        [rewrite Hsame; exact Hxs | rewrite Hsame; exact Hys | exact Hs].
    + cbn. auto.
  - intros fuel self self' Hfuel Hself.
    destruct (greedy_method_inv fuel self self' x y tol rel deg seeds Hself)
      as (r & Hr & Hi & Ha & Her & _ & Hsz & _).
    rewrite (Hgreedy fuel Hfuel) in Hr.
    destruct (deliver_inv _ _ _ _ _ _ Hr) as (xs & ys & s & _ & _ & _ & ->).
    cbn in Hi, Ha, Her, Hsz. auto.
Qed.

(** C6, amended.  At every state the loop reaches from the seeds,
    [indices] and [args] have the same length and hold the same multiset of
    index values, and [indices] is ascending when the seeds are (those of
    the default seeder are).  The index values need not be distinct.  They
    are distinct when the seeds are, every error in the trace is strictly
    positive, and the error vector of every spline the loop fits vanishes at
    the knots of that spline. *)
Theorem knot_set_invariant (x y : list float) (deg : Z) (_tol : float)
  (seeds : option (list Z)) (st : loop_state) :
  reach x y deg _tol (seeded x deg seeds) st ->
  len (indices st) = len (args st)
  /\ Permutation (args st) (indices st)
  /\ (ascending (fst (_seed x deg seeds)) -> ascending (indices st))
  /\ (seeds = None -> ascending (indices st))
  /\ (NoDup (fst (_seed x deg seeds)) ->
      Forall (fun e => (0 <? e)%float = true) (errors st) ->
      (forall st1 errs i,
          reach x y deg _tol (seeded x deg seeds) st1 ->
          fit_errors UnivariateSpline x y deg (indices st1) = Returns errs ->
          In i (indices st1) -> getitem errs i = Returns 0%float) ->
      NoDup (indices st)).
Proof.
  intros Hv.
  pose proof (visits_same_knots UnivariateSpline x y deg _tol _ st Hv
                (seeded_same_knots x deg seeds)) as [Hlen Hperm].
  pose proof (visits_ascending UnivariateSpline x y deg _tol _ st Hv) as Hasc.
  split; [exact Hlen|]. split; [exact Hperm|]. split; [exact Hasc|]. split.
  - intros ->. apply Hasc. apply sort_ascending.
  - intros Hnd Hpos Hknots.
    apply (visits_NoDup UnivariateSpline x y deg _tol _ st Hv
             (seeded_same_knots x deg seeds) Hnd Hpos Hknots).
Qed.

(** C8.  A pass fits the spline on the current knots, takes the vector
    [errs] of absolute errors on the whole domain and selects
    [imax = argmax errs]: when no entry is a NaN, [errs[imax]] bounds every
    entry and is strictly above every entry before it, so the first of
    several equal maxima is selected.  Unless the pass converges, [imax] is
    appended to [args] and inserted into [indices], and [errs[imax]] is
    appended to the trace. *)
Theorem worst_point_selection (x y : list float) (deg : Z) (_tol : float)
  (st st' : loop_state) :
  pass x y deg _tol st = Returns st' ->
  exists xs ys s errs imax e,
    take x (indices st) = Returns xs
    /\ take y (indices st) = Returns ys
    /\ UnivariateSpline xs ys deg = inr s
    /\ abs_errors s x y = Returns errs
    /\ np.argmax errs = Returns imax
    /\ 0 <= imax < len errs
    /\ getitem errs imax = Returns e
    /\ (no_nan errs = true ->
        (forall j v, getitem errs j = Returns v -> (v <=? e)%float = true)
        /\ (forall j v, 0 <= j < imax -> getitem errs j = Returns v ->
                        (v <? e)%float = true))
    /\ st' = (if (e <? _tol)%float then trimmed st else grown st imax e)
    /\ ((e <? _tol)%float = false ->
        args st' = args st ++ [imax]
        /\ indices st' = np.sort (indices st ++ [imax])
        /\ errors st' = errors st ++ [e]).
Proof.
  intros Hb. destruct (body_inv UnivariateSpline x y deg _tol st st' Hb)
    as (imax & e & Hw & Hst).
  destruct (worst_inv UnivariateSpline x y deg _ _ _ Hw) as (errs & Hfit & Harg & Hget).
  destruct (fit_errors_takes UnivariateSpline x y deg _ _ Hfit)
    as (xs & ys & s & Hxs & Hys & Hs & Habs).
  exists xs, ys, s, errs, imax, e.
  split; [exact Hxs|]. split; [exact Hys|]. split; [exact Hs|]. split; [exact Habs|].
  split; [exact Harg|]. split; [now apply argmax_bounds|]. split; [exact Hget|]. split.
  { intros Hnan. destruct (argmax_is_first_maximum errs imax Harg Hnan)
      as (e' & Hget' & Hle & Hlt).
    rewrite Hget in Hget'. injection Hget' as <-. split; assumption. }
  split; [exact Hst|].
  intros He. rewrite He in Hst. subst st'. cbn. auto.
Qed.

(** C5.  In relative mode [ymax] is the largest absolute ordinate: an entry
    of [|y|] that bounds every entry (when no ordinate is a NaN).  When
    [ymax] is zero, [_greedy] and the method [greedy] raise the assertion
    error; when it is positive, [_greedy] is its loop run with the one
    threshold [tol * ymax], which is also the tolerance it returns.  A pass
    with threshold [_tol] compares the worst error [e] with [_tol] by
    [e < _tol] only: it converges exactly when that holds, and a worst
    error equal to the threshold does not converge. *)
Theorem effective_tolerance (fuel : nat) (x y : list float) (tol : float) (deg : Z)
  (seeds : option (list Z)) (ymax : float) :
  np.max (np.abs y) = Returns ymax ->
  In ymax (np.abs y)
  /\ (no_nan y = true -> Forall (fun v => (v <=? ymax)%float = true) (np.abs y))
  /\ ((ymax =? 0)%float = true ->
      run_greedy fuel x y tol true deg seeds = Raises AssertionError
      /\ forall self,
          greedy UnivariateSpline fuel self x y tol true deg seeds = Raises AssertionError)
  /\ ((0 <? ymax)%float = true ->
      run_greedy fuel x y tol true deg seeds =
      (st <- loop x y deg (tol * ymax)%float fuel (seeded x deg seeds) ;;
       xs <- take x (indices st) ;;
       ys <- take y (indices st) ;;
       spline <- lift (UnivariateSpline xs ys deg) ;;
       Returns {| r_spline := spline;
                  r_indices := indices st;
                  r_args := args st;
                  r_errors := errors st;
                  r_tol := (tol * ymax)%float |}))
  /\ (forall r, run_greedy fuel x y tol true deg seeds = Returns r ->
                r_tol r = (tol * ymax)%float)
  /\ (forall _tol st imax e,
         worst_on x y deg (indices st) = Returns (imax, e) ->
         pass x y deg _tol st =
         Returns (if (e <? _tol)%float then trimmed st else grown st imax e))
  /\ (forall _tol st imax,
         worst_on x y deg (indices st) = Returns (imax, _tol) ->
         pass x y deg _tol st = Returns (grown st imax _tol)).
Proof.
  intros Hmax. destruct (max_is_maximum _ _ Hmax) as [Hin Hup].
  split; [exact Hin|]. split.
  { intros Hnan. apply Hup. now rewrite no_nan_abs. }
  split; [|split; [|split; [|split]]].
  - intros Hzero. apply zero_not_positive in Hzero.
    assert (scale y true = Raises AssertionError) as Hscale.
    { unfold scale. rewrite Hmax. cbn [bind]. rewrite Hzero. reflexivity. }
    split; [|intros self]; unfold _greedy, greedy; rewrite Hscale; reflexivity.
  - intros Hpos. unfold _greedy, scale. rewrite Hmax. cbn [bind].
    rewrite Hpos. reflexivity.
  - intros r Hr. destruct (greedy_inv _ _ _ _ _ _ _ _ Hr) as (m & st & Hs & _ & _ & _ & _ & _ & Ht).
    unfold scale in Hs. rewrite Hmax in Hs. cbn [bind] in Hs.
    destruct (0 <? ymax)%float; [|discriminate]. cbn [assert bind] in Hs.
    injection Hs as <-. exact Ht.
  - intros _tol st imax e Hw. rewrite body_worst, Hw. cbn [bind fst snd].
    now destruct (e <? _tol)%float.
  - intros _tol st imax Hw. rewrite body_worst, Hw. cbn [bind fst snd].
    now rewrite ltb_irrefl.
Qed.

(** C10.  When [__init__] is given ordinates and no abscissas, the
    abscissas are the index labels [0 .. len(y)-1] (as floats); they are as
    many as the ordinates, so the length assertion passes and the call is
    the call of [greedy] on these abscissas. *)
Theorem init_default_abscissas (fuel : nat) (y : list float) (deg : Z) (tol : float)
  (rel : bool) (seeds : option (list Z)) :
  np.arange (len y) = map float_of_int (range (len y))
  /\ range (len y) = map Z.of_nat (seq 0 (length y))
  /\ len (np.arange (len y)) = len y
  /\ assert (len (np.arange (len y)) =? len y) = Returns tt
  /\ __init__ UnivariateSpline fuel None (Some y) deg tol rel seeds =
     greedy UnivariateSpline fuel (fresh deg rel) (np.arange (len y)) y tol rel deg seeds.
Proof.
  assert (len (np.arange (len y)) = len y) as Hlen.
  { unfold np.arange. rewrite len_map, len_range. pose proof (len_nonneg y). lia. }
  split; [reflexivity|]. split.
  { unfold range, len. now rewrite Nat2Z.id. }
  split; [exact Hlen|].
  assert (assert (len (np.arange (len y)) =? len y) = Returns tt) as Hassert
      by (now rewrite Hlen, Z.eqb_refl).
  split; [exact Hassert|].
  unfold __init__. now rewrite Hassert.
Qed.

End GreedyFacts.

(** ** [verify] *)

Lemma all_within_sym (tol : float) (a b : list float) :
  np.all (map (fun e => (e <=? tol)%float)
              (np.abs (map (fun p => (fst p - snd p)%float) (combine a b))))
  = forallb (fun e => (e <=? tol)%float)
            (np.abs (map (fun p => (fst p - snd p)%float) (combine b a))).
Proof.
  revert b. induction a as [|u a IH]; intros [|v b]; try reflexivity.
  cbn [combine map np.abs np.all forallb fst snd].
  rewrite (abs_sub_sym u v). f_equal. apply IH.
Qed.


(** * The theorems on concrete runs *)

Lemma seed_default_indices_witness :
  NoDup (fst (_seed (np.arange 10) 5 None)) <-> 2 * (5 - 1) < len (np.arange 10).
Proof.
  apply (seed_default_indices (np.arange 10) 5); [lia | vm_compute; reflexivity].
Defined.

(** C2 as stated fails for degree 5 on a domain of 8 points: the last
    interior point is the end point 7. *)
Lemma seed_duplicate_indices :
  2 <= 5 /\ 5 < len (np.arange 8)
  /\ fst (_seed (np.arange 8) 5 None) = [0; 1; 3; 5; 7; 7]
  /\ ~ NoDup (fst (_seed (np.arange 8) 5 None)).
Proof.
  split; [lia|]. split; [vm_compute; reflexivity|]. split; [vm_compute; reflexivity|].
  intros H. apply (NoDup_default_seed (np.arange 8) 5) in H; [|lia|vm_compute; reflexivity].
  vm_compute in H. discriminate H.
Qed.

Lemma reach_s6_1 (_tol : float) :
  (3 <? _tol)%float = false ->
  visits table_fit x6 y6 2 _tol s6_0 s6_1.
Proof.
  intros H. apply (visits_next table_fit x6 y6 2 _tol s6_0 s6_0 s6_1).
  - apply visits_start.
  - reflexivity.
  - vm_compute. reflexivity.
  - rewrite body_worst.
    change (worst table_fit x6 y6 2 (indices s6_0)) with (Returns (1, 3%float)).
    cbn [bind fst snd]. rewrite H. reflexivity.
Defined.

Lemma convergence_trim_witness :
  body checked_fit x6 y6 2 (2 * 1)%float s6_1 = Returns (trimmed s6_1)
  /\ exists fuel0 r,
      (forall fuel, (fuel0 <= fuel)%nat ->
                    _greedy checked_fit fuel x6 y6 2%float false 2 None = Returns r)
      /\ r_indices r = [0; 1; 3; 5]
      /\ r_args r = [0; 3; 5; 1]
      /\ r_errors r = [3%float].
Proof.
  destruct (convergence_trim checked_fit x6 y6 2%float false 2 None 1%float
              s6_1 4 1%float) as (Hpass & _ & _ & _ & fuel0 & Hrun & Hret & _).
  - reflexivity.
  - apply (visits_next checked_fit x6 y6 2 (2 * 1)%float s6_0 s6_0 s6_1).
    + apply visits_start.
    + reflexivity.
    + vm_compute. reflexivity.
    + vm_compute. reflexivity.
  - reflexivity.
  - vm_compute. reflexivity.
  - vm_compute. reflexivity.
  - reflexivity.
  - split; [exact Hpass|].
    destruct Hret as (r & Hr & Hi & Ha & He).
    { left. rewrite default_seed. apply sort_ascending. }
    exists fuel0, r. split.
    + intros fuel Hfuel. now rewrite (Hrun fuel Hfuel).
    + split; [exact Hi|]. split; [exact Ha | exact He].
Defined.




Lemma effective_tolerance_witness :
  _greedy zero_fit 3 x5 y5 0.5%float true 2 None = Raises AssertionError
  /\ In 4%float (np.abs y6)
  /\ Forall (fun v => (v <=? 4)%float = true) (np.abs y6)
  /\ _greedy table_fit 7 x6 y6 0.5%float true 2 None = Returns result6
  /\ r_tol result6 = (0.5 * 4)%float.
Proof.
  split.
  { refine (proj1 (proj1 (proj2 (proj2
              (effective_tolerance zero_fit 3 x5 y5 0.5%float 2 None 0%float _))) _)).
    - reflexivity.
    - reflexivity. }
  destruct (effective_tolerance table_fit 7 x6 y6 0.5%float 2 None 4%float)
    as (Hin & Hup & _ & Hrun & Htol & _).
  - reflexivity.
  - assert (_greedy table_fit 7 x6 y6 0.5%float true 2 None = Returns result6) as Hr.
    { rewrite (Hrun eq_refl). vm_compute. reflexivity. }
    split; [exact Hin|]. split; [apply Hup; reflexivity|].
    split; [exact Hr|]. apply (Htol result6 Hr).
Defined.



Lemma worst_point_selection_witness :
  exists xs ys s errs imax e,
    take x6 (indices s6_0) = Returns xs
    /\ take y6 (indices s6_0) = Returns ys
    /\ table_fit xs ys 2 = inr s
    /\ abs_errors s x6 y6 = Returns errs
    /\ np.argmax errs = Returns imax
    /\ 0 <= imax < len errs
    /\ getitem errs imax = Returns e
    /\ (no_nan errs = true ->
        (forall j v, getitem errs j = Returns v -> (v <=? e)%float = true)
        /\ (forall j v, 0 <= j < imax -> getitem errs j = Returns v ->
                        (v <? e)%float = true))
    /\ s6_1 = (if (e <? 0.5)%float then trimmed s6_0 else grown s6_0 imax e)
    /\ ((e <? 0.5)%float = false ->
        args s6_1 = args s6_0 ++ [imax]
        /\ indices s6_1 = np.sort (indices s6_0 ++ [imax])
        /\ errors s6_1 = errors s6_0 ++ [e]).
Proof.
  apply (worst_point_selection table_fit x6 y6 2 0.5%float s6_0 s6_1).
  vm_compute. reflexivity.
Defined.


Lemma reach_s6_2 : visits table_fit x6 y6 2 0.5%float s6_0 s6_2.
Proof.
  apply (visits_next table_fit x6 y6 2 0.5%float s6_0 s6_1 s6_2).
  - apply reach_s6_1. reflexivity.
  - reflexivity.
  - vm_compute. reflexivity.
  - vm_compute. reflexivity.
Defined.

Lemma reach_s6_only (st : loop_state) :
  visits table_fit x6 y6 2 0.5%float s6_0 st ->
  st = s6_0 \/ st = s6_1 \/ st = s6_2.
Proof.
  intros Hv. induction Hv as [|st st' _ IH _ Hc Hb]; [now left|].
  destruct IH as [-> | [-> | ->]].
  - right. left.
    assert (body table_fit x6 y6 2 0.5%float s6_0 = Returns s6_1) as E
        by (vm_compute; reflexivity).
    rewrite E in Hb. now injection Hb.
  - right. right.
    assert (body table_fit x6 y6 2 0.5%float s6_1 = Returns s6_2) as E
        by (vm_compute; reflexivity).
    rewrite E in Hb. now injection Hb.
  - vm_compute in Hc. discriminate Hc.
Qed.

Lemma table_fit_exact_on_s6 (st : loop_state) (errs : list float) (i : Z) :
  visits table_fit x6 y6 2 0.5%float s6_0 st ->
  fit_errors table_fit x6 y6 2 (indices st) = Returns errs ->
  In i (indices st) ->
  getitem errs i = Returns 0%float.
Proof.
  intros Hv Hfit Hin. apply reach_s6_only in Hv.
  destruct Hv as [-> | [-> | ->]]; vm_compute in Hfit; injection Hfit as <-;
    vm_compute in Hin; intuition (subst; reflexivity).
Qed.

Lemma knot_set_invariant_witness : NoDup (indices s6_2).
Proof.
  refine (proj2 (proj2 (proj2 (proj2
            (knot_set_invariant table_fit x6 y6 2 0.5%float None s6_2 reach_s6_2))))
            _ _ _).
  - repeat constructor; vm_compute; intuition discriminate.
  - repeat constructor.
  - intros st1 errs i. apply table_fit_exact_on_s6.
Defined.

(** C6 as stated fails on five zero ordinates with tolerance 0: every error
    is zero, [argmax] is 0, the comparison [0 < 0] does not converge, and
    the knot 0 is held twice. *)
Lemma repeated_knot :
  exists st,
    visits zero_fit x5 y5 2 (0 * 1)%float (seeded x5 2 None) st
    /\ indices (seeded x5 2 None) = [0; 2; 4]
    /\ indices st = [0; 0; 2; 4]
    /\ args st = [0; 2; 4; 0]
    /\ ~ NoDup (indices st)
    /\ exists r,
        _greedy zero_fit 3 x5 y5 0%float false 2 None = Returns r
        /\ r_indices r = [0; 0; 2; 4].
Proof.
  exists (grown (seeded x5 2 None) 0 0%float).
  split; [|split; [|split; [|split; [|split]]]].
  - apply (visits_next zero_fit x5 y5 2 (0 * 1)%float _ (seeded x5 2 None)).
    + apply visits_start.
    + reflexivity.
    + vm_compute. reflexivity.
    + vm_compute. reflexivity.
  - vm_compute. reflexivity.
  - vm_compute. reflexivity.
  - vm_compute. reflexivity.
  - change (indices (grown (seeded x5 2 None) 0 0%float)) with [0; 0; 2; 4].
    intros H. inversion H as [|? ? Hnotin _]. apply Hnotin. now left.
  - eexists. split; [vm_compute; reflexivity | reflexivity].
Qed.

(** * More of the code *)

(** ** NaN and the comparisons *)

Lemma ltb_not_nan (a b : float) :
  (a <? b)%float = true -> is_nan a = false /\ is_nan b = false.
Proof.
  rewrite ltb_spec, !is_nan_spec. unfold SFltb, SFcompare.
  destruct (Prim2SF a) as [sa|sa| |sa ma ea], (Prim2SF b) as [sb|sb| |sb mb eb];
    try discriminate; intros _; split; discriminate.
Qed.

(** The scan of [np.argmax] ends on the first NaN when there is one. *)
Lemma argmax_scan_nan (rest pre : list float) (mp e : float) (max_ind : Z) :
  0 <= max_ind ->
  nth_error pre (Z.to_nat max_ind) = Some mp ->
  nth_error (pre ++ rest) (Z.to_nat (np.argmax_scan mp max_ind (len pre) rest)) = Some e ->
  is_nan e = false ->
  no_nan rest = true.
Proof.
  revert pre mp max_ind. induction rest as [|v rest IH]; intros pre mp max_ind Hm Hmp He Hnan.
  - reflexivity.
  - assert (nth_error pre (Z.to_nat max_ind) <> None) as Hlen by congruence.
    apply nth_error_Some in Hlen.
    replace (pre ++ v :: rest) with ((pre ++ [v]) ++ rest) in He
      by (now rewrite <- app_assoc).
    cbn [np.argmax_scan] in He.
    replace (len pre + 1) with (len (pre ++ [v])) in He by (now rewrite len_app).
    assert (nth_error (pre ++ [v]) (length pre) = Some v) as Hv
        by (rewrite nth_error_app2, Nat.sub_diag by lia; reflexivity).
    destruct (v <=? mp)%float eqn:Hvm; cbn [negb] in He.
    + assert (is_nan v = false) as Hvn.
      { rewrite is_nan_spec. rewrite leb_spec in Hvm. intros E. rewrite E in Hvm.
        discriminate Hvm. }
      cbn [no_nan forallb]. rewrite Hvn. cbn [negb andb].
      apply (IH (pre ++ [v]) mp max_ind Hm); [|exact He|exact Hnan].
      now rewrite nth_error_app1.
    + destruct (is_nan v) eqn:Hvn.
      * exfalso. unfold len in He. rewrite Nat2Z.id in He.
        rewrite nth_error_app1 in He by (rewrite length_app; simpl; lia).
        rewrite Hv in He. injection He as <-. congruence.
      * cbn [no_nan forallb]. rewrite Hvn. cbn [negb andb].
        apply (IH (pre ++ [v]) v (len pre)); [apply len_nonneg| |exact He|exact Hnan].
        unfold len. now rewrite Nat2Z.id.
Qed.

Lemma argmax_no_nan (a : list float) (imax : Z) (e : float) :
  np.argmax a = Returns imax -> getitem a imax = Returns e ->
  is_nan e = false -> no_nan a = true.
Proof.
  intros Ha Hg Hnan. pose proof (argmax_bounds a imax Ha) as Hb.
  apply getitem_inv in Hg. destruct Hg as [_ Hg].
  destruct (Z.ltb_spec imax 0); [lia|].
  destruct a as [|v rest]; [discriminate|]. unfold np.argmax in Ha.
  injection Ha as Ha. destruct (is_nan v) eqn:Hv.
  - subst imax. cbn in Hg. injection Hg as <-. congruence.
  - cbn [no_nan forallb]. rewrite Hv. cbn [negb andb].
    apply (argmax_scan_nan rest [v] v e 0); [lia|reflexivity| |exact Hnan].
    change (len [v]) with 1. rewrite Ha. exact Hg.
Qed.

(** ** Indexing again *)

Lemma take_length {A : Type} (a : list A) (idx : list Z) (vs : list A) :
  take a idx = Returns vs -> len vs = len idx.
Proof.
  revert vs. induction idx as [|i idx IH]; cbn [take]; intros vs H.
  - now injection H as <-.
  - destruct (getitem a i) as [v|ex|]; try discriminate. cbn [bind] in H.
    destruct (take a idx) as [ws|ex|]; try discriminate. cbn [bind] in H.
    injection H as <-. specialize (IH ws eq_refl). unfold len in *. simpl. lia.
Qed.

(** Entry [k] of [a[idx]] is [a[idx[k]]]. *)
Lemma take_nth {A : Type} (a : list A) (idx : list Z) (vs : list A) (k : nat) (i : Z) :
  take a idx = Returns vs -> nth_error idx k = Some i ->
  exists v, nth_error vs k = Some v /\ getitem a i = Returns v.
Proof.
  revert vs k. induction idx as [|j idx IH]; cbn [take]; intros vs k H Hk.
  - destruct k; discriminate.
  - destruct (getitem a j) as [v|ex|] eqn:Hj; try discriminate. cbn [bind] in H.
    destruct (take a idx) as [ws|ex|]; try discriminate. cbn [bind] in H.
    injection H as <-. destruct k as [|k].
    + injection Hk as <-. exists v. auto.
    + apply (IH ws k eq_refl Hk).
Qed.

(** ** The loop, from its result *)

Section ResultFacts.

Variable UnivariateSpline : fitter.

Local Abbreviation run_greedy := (_greedy UnivariateSpline).
Local Abbreviation loop := (while UnivariateSpline).
Local Abbreviation reach := (visits UnivariateSpline).
Local Abbreviation worst_on := (worst UnivariateSpline).
Local Abbreviation pass := (body UnivariateSpline).
Local Abbreviation errs_on := (fit_errors UnivariateSpline).

Lemma while_visits (x y : list float) (deg : Z) (_tol : float) (fuel : nat)
  (st0 st : loop_state) :
  loop x y deg _tol fuel st0 = Returns st ->
  reach x y deg _tol st0 st /\ (flag st <> 0 \/ len x <= ctr st).
Proof.
  revert st0. induction fuel as [|fuel IH]; intros st0 H; [discriminate|].
  cbn [while] in H. destruct ((flag st0 =? 0) && (ctr st0 <? len x)) eqn:G.
  - apply guard_true in G. destruct G as [Hf Hc].
    destruct (pass x y deg _tol st0) as [st1|ex|] eqn:Hb; try discriminate.
    cbn [bind] in H. destruct (IH st1 H) as [Hv Hexit]. split; [|exact Hexit].
    eapply visits_trans; [|exact Hv].
    eapply visits_next; [constructor | exact Hf | exact Hc | exact Hb].
  - apply guard_false in G. injection H as <-. split; [constructor | exact G].
Qed.

Lemma greedy_inv_full (fuel : nat) (x y : list float) (tol : float) (rel : bool)
  (deg : Z) (seeds : option (list Z)) (r : greedy_result) :
  run_greedy fuel x y tol rel deg seeds = Returns r ->
  exists ymax st xs ys s,
    scale y rel = Returns ymax
    /\ loop x y deg (tol * ymax)%float fuel (seeded x deg seeds) = Returns st
    /\ take x (indices st) = Returns xs
    /\ take y (indices st) = Returns ys
    /\ UnivariateSpline xs ys deg = inr s
    /\ r = {| r_spline := s;
              r_indices := indices st;
              r_args := args st;
              r_errors := errors st;
              r_tol := (tol * ymax)%float |}.
Proof.
  unfold _greedy. destruct (scale y rel) as [ymax|ex|]; try discriminate. cbn [bind].
  destruct (loop _ _ _ _ _ _) as [st|ex|] eqn:Hl; try discriminate. cbn [bind].
  destruct (take x _) as [xs|ex|] eqn:Hx; try discriminate. cbn [bind].
  destruct (take y _) as [ys|ex|] eqn:Hy; try discriminate. cbn [bind].
  destruct (UnivariateSpline xs ys deg) as [ex|s] eqn:Hs; try discriminate.
  cbn [lift bind]. intros [= <-]. exists ymax, st, xs, ys, s. auto 10.
Qed.

Lemma greedy_method_inv_full (fuel : nat) (self self' : ReducedOrderSpline)
  (x y : list float) (tol : float) (rel : bool) (deg : Z) (seeds : option (list Z)) :
  greedy UnivariateSpline fuel self x y tol rel deg seeds = Returns self' ->
  exists r X Y,
    run_greedy fuel x y tol rel deg seeds = Returns r
    /\ take x (r_indices r) = Returns X
    /\ take y (r_indices r) = Returns Y
    /\ len (r_indices r) <> 0
    /\ self' = {| self_deg := deg;
                  self_rel := rel;
                  self_made := true;
                  self_tol_given := Some tol;
                  self_spline := Some (r_spline r);
                  self_indices := Some (r_indices r);
                  self_args := Some (r_args r);
                  self_errors := Some (r_errors r);
                  self_tol := Some (r_tol r);
                  self_X := Some X;
                  self_Y := Some Y;
                  self_size := Some (len (r_indices r));
                  self_compression :=
                    Some (float_of_int (len y) / float_of_int (len (r_indices r)))%float |}.
Proof.
  unfold greedy. destruct (scale y rel) as [ymax|ex|]; try discriminate. cbn [bind].
  destruct (run_greedy _ _ _ _ _ _ _) as [r|ex|] eqn:Hr; try discriminate. cbn [bind].
  destruct (take x _) as [X|ex|] eqn:HX; try discriminate. cbn [bind].
  destruct (take y _) as [Y|ex|] eqn:HY; try discriminate. cbn [bind].
  destruct (Z.eqb_spec (len (r_indices r)) 0) as [|Hsz]; try discriminate. cbn [bind].
  intros [= <-]. exists r, X, Y. auto.
Qed.

(** What the loop has appended stays behind the seeds, one trace entry for
    each appended index. *)
Lemma visits_appended (x y : list float) (deg : Z) (_tol : float) (st0 st : loop_state) :
  len x = len y ->
  reach x y deg _tol st0 st ->
  exists added,
    args st = args st0 ++ added
    /\ len (errors st) = len (errors st0) + len added
    /\ Forall (fun i => 0 <= i < len x) added.
Proof.
  intros Hxy Hv. induction Hv as [|st st' Hv IH Hf Hc Hb].
  - exists []. rewrite app_nil_r. change (len (@nil Z)) with 0.
    repeat split; [lia | constructor].
  - destruct IH as (added & Ha & Hl & Hin).
    destruct (body_inv UnivariateSpline x y deg _tol st st' Hb) as (imax & e & Hw & ->).
    destruct (worst_inv UnivariateSpline x y deg _ _ _ Hw) as (errs & Hfit & Harg & _).
    apply argmax_bounds in Harg.
    rewrite (fit_errors_len UnivariateSpline x y deg _ _ Hfit Hxy) in Harg.
    destruct (e <? _tol)%float; cbn [trimmed grown args errors].
    + exists added. auto.
    + exists (added ++ [imax]). split; [|split].
      * rewrite Ha. now rewrite app_assoc.
      * rewrite !len_app, Hl. change (len [imax]) with 1. change (len [e]) with 1. lia.
      * apply Forall_app. split; [exact Hin | now repeat constructor].
Qed.

(** The knot count: the seeds and one knot for each trace entry, never more
    than [len x - 1] unless the seeds were. *)
Lemma visits_count (x y : list float) (deg : Z) (_tol : float) (st0 st : loop_state) :
  reach x y deg _tol st0 st ->
  same_knots st0 -> ctr st0 = len (indices st0) + 1 ->
  len (indices st) = len (indices st0) + (len (errors st) - len (errors st0))
  /\ len (indices st) <= Z.max (len (indices st0)) (len x - 1).
Proof.
  intros Hv Hsame Hc0. induction Hv as [|st st' Hv IH Hf Hc Hb]; [lia|].
  destruct IH as [Hn Hle].
  pose proof (visits_counter UnivariateSpline x y deg _tol st0 st Hv Hc0 Hf) as Hctr.
  destruct (visits_same_knots UnivariateSpline x y deg _tol st0 st Hv Hsame) as [Hlen _].
  destruct (body_inv UnivariateSpline x y deg _tol st st' Hb) as (imax & e & _ & ->).
  destruct (e <? _tol)%float; cbn [trimmed grown indices errors].
  - rewrite len_sort, <- Hlen. lia.
  - rewrite len_sort, !len_app. change (len [imax]) with 1. change (len [e]) with 1. lia.
Qed.

(** A result with fewer than [len x - 1] knots comes from a pass that
    converged. *)
Lemma greedy_converged (fuel : nat) (x y : list float) (tol : float)
  (deg : Z) (seeds : option (list Z)) (ymax : float) (st : loop_state) :
  loop x y deg (tol * ymax)%float fuel (seeded x deg seeds) = Returns st ->
  len (indices st) + 1 < len x ->
  exists prev imax e,
    reach x y deg (tol * ymax)%float (seeded x deg seeds) prev
    /\ worst_on x y deg (indices prev) = Returns (imax, e)
    /\ (e <? tol * ymax)%float = true
    /\ st = trimmed prev.
Proof.
  intros Hl Hfew. destruct (while_visits _ _ _ _ _ _ _ Hl) as [Hv Hexit].
  destruct (Z.eq_dec (flag st) 0) as [Hf|Hf].
  - pose proof (visits_counter UnivariateSpline x y deg _ _ st Hv eq_refl Hf).
    destruct Hexit; [contradiction|lia].
  - destruct (visits_converged UnivariateSpline x y deg _ _ st Hv eq_refl Hf)
      as (prev & imax & e & Hp & _ & _ & Hw & He & Hst).
    exists prev, imax, e. auto.
Qed.

Lemma worst_below (x y : list float) (deg : Z) (idx : list Z) (imax : Z)
  (e bound : float) :
  worst_on x y deg idx = Returns (imax, e) ->
  (e <? bound)%float = true ->
  exists errs, errs_on x y deg idx = Returns errs
    /\ Forall (fun v => (v <? bound)%float = true) errs.
Proof.
  intros Hw He. destruct (worst_inv UnivariateSpline x y deg _ _ _ Hw)
    as (errs & Hfit & Harg & Hget).
  exists errs. split; [exact Hfit|].
  destruct (ltb_not_nan e bound He) as [Hnan _].
  pose proof (argmax_no_nan errs imax e Harg Hget Hnan) as Hnn.
  destruct (argmax_first_maximum errs imax Harg Hnn) as (e' & He' & Hle & _).
  pose proof (argmax_bounds errs imax Harg) as Hb.
  apply getitem_inv in Hget. destruct Hget as [_ Hget].
  destruct (Z.ltb_spec imax 0); [lia|]. rewrite Hget in He'. injection He' as <-.
  apply Forall_forall. intros v Hv. eapply leb_ltb_trans; [apply Hle, Hv | exact He].
Qed.

Lemma converged_errors (fuel : nat) (x y : list float) (tol : float)
  (rel : bool) (deg : Z) (seeds : option (list Z)) (r : greedy_result) :
  run_greedy fuel x y tol rel deg seeds = Returns r ->
  ascending (fst (_seed x deg seeds)) ->
  len (r_indices r) + 1 < len x ->
  exists errs,
    abs_errors (r_spline r) x y = Returns errs
    /\ Forall (fun v => (v <? r_tol r)%float = true) errs.
Proof.
  intros Hr Hasc Hfew.
  destruct (greedy_inv_full _ _ _ _ _ _ _ _ Hr)
    as (ymax & st & xs & ys & s & _ & Hl & Hx & Hy & Hs & ->).
  cbn [r_spline r_indices r_tol] in *.
  destruct (greedy_converged _ _ _ _ _ _ _ _ Hl Hfew) as (prev & imax & e & Hp & Hw & He & ->).
  destruct (visits_same_knots UnivariateSpline x y deg _ _ prev Hp
              (seeded_same_knots x deg seeds)) as [_ Hperm].
  pose proof (visits_ascending UnivariateSpline x y deg _ _ prev Hp Hasc) as Hasc'.
  cbn [trimmed indices] in Hx, Hy.
  rewrite (sort_of_permutation _ _ Hasc' Hperm) in Hx, Hy.
  destruct (worst_below x y deg _ _ _ _ Hw He) as (errs & Hfit & Hall).
  exists errs. split; [|exact Hall].
  unfold fit_errors in Hfit. rewrite Hx, Hy in Hfit. cbn [bind] in Hfit.
  rewrite Hs in Hfit. exact Hfit.
Qed.

(** X1.  A result of [_greedy] from ascending seeds that holds fewer than
    [len x - 1] knots comes from a pass that converged: every absolute
    error of the returned spline on the data is strictly below the
    effective tolerance that is returned with it. *)
Theorem converged_within_tolerance (fuel : nat) (x y : list float) (tol : float)
  (rel : bool) (deg : Z) (seeds : option (list Z)) (r : greedy_result) :
  run_greedy fuel x y tol rel deg seeds = Returns r ->
  ascending (fst (_seed x deg seeds)) ->
  len (r_indices r) + 1 < len x ->
  exists errs,
    abs_errors (r_spline r) x y = Returns errs
    /\ Forall (fun v => (v <? r_tol r)%float = true) errs.
Proof.
  intros Hr Hasc Hfew.
  destruct (greedy_inv_full _ _ _ _ _ _ _ _ Hr)
    as (ymax & st & xs & ys & s & _ & Hl & Hx & Hy & Hs & ->).
  cbn [r_spline r_indices r_tol] in *.
  destruct (greedy_converged _ _ _ _ _ _ _ _ Hl Hfew) as (prev & imax & e & Hp & Hw & He & ->).
  destruct (visits_same_knots UnivariateSpline x y deg _ _ prev Hp
              (seeded_same_knots x deg seeds)) as [_ Hperm].
  pose proof (visits_ascending UnivariateSpline x y deg _ _ prev Hp Hasc) as Hasc'.
  cbn [trimmed indices] in Hx, Hy.
  rewrite (sort_of_permutation _ _ Hasc' Hperm) in Hx, Hy.
  destruct (worst_below x y deg _ _ _ _ Hw He) as (errs & Hfit & Hall).
  exists errs. split; [|exact Hall].
  unfold fit_errors in Hfit. rewrite Hx, Hy in Hfit. cbn [bind] in Hfit.
  rewrite Hs in Hfit. exact Hfit.
Qed.

(** X2.  On data of equal lengths, a model that [greedy] built from
    ascending seeds with fewer than [len x - 1] knots passes its own
    verification on the training data: [verify] reports [True]. *)
Theorem verify_after_greedy (fuel : nat) (self self' : ReducedOrderSpline)
  (x y : list float) (tol : float) (rel : bool) (deg : Z) (seeds : option (list Z))
  (size : Z) :
  greedy UnivariateSpline fuel self x y tol rel deg seeds = Returns self' ->
  len x = len y ->
  ascending (fst (_seed x deg seeds)) ->
  self_size self' = Some size ->
  size + 1 < len x ->
  exists errors, verify self' x y = Returns (true, errors).
Proof.
  intros Hg Hxy Hasc Hsize Hfew.
  destruct (greedy_method_inv_full _ _ _ _ _ _ _ _ _ Hg) as (r & X & Y & Hr & _ & _ & _ & ->).
  cbn [self_size] in Hsize. injection Hsize as <-.
  destruct (converged_errors _ _ _ _ _ _ _ _ Hr Hasc Hfew) as (errs & He & Hall).
  unfold verify. cbn [self_made self_spline self_tol].
  assert (len y = len (call (r_spline r) x)) as Hlen
      by (unfold call; now rewrite len_map).
  unfold abs_errors, np.sub in He. rewrite <- Hlen, Z.eqb_refl in He. cbn [bind] in He.
  injection He as <-.
  unfold np.sub. rewrite Hlen, Z.eqb_refl. cbn [bind]. eexists. f_equal. f_equal.
  rewrite all_within_sym. apply forallb_forall. intros v Hv.
  rewrite Forall_forall in Hall. apply ltb_leb, Hall, Hv.
Qed.

(** X3.  In a result of [_greedy] on data of equal lengths, [args] is the
    seed list followed by the indices the loop kept, in the order of their
    selection; each kept index lies in [0, len x) and has one entry in the
    trace, and [indices] is a rearrangement of [args]. *)
Theorem selection_bookkeeping (fuel : nat) (x y : list float) (tol : float)
  (rel : bool) (deg : Z) (seeds : option (list Z)) (r : greedy_result) :
  run_greedy fuel x y tol rel deg seeds = Returns r ->
  len x = len y ->
  exists added,
    r_args r = fst (_seed x deg seeds) ++ added
    /\ len added = len (r_errors r)
    /\ Forall (fun i => 0 <= i < len x) added
    /\ Permutation (r_indices r) (fst (_seed x deg seeds) ++ added).
Proof.
  intros Hr Hxy.
  destruct (greedy_inv_full _ _ _ _ _ _ _ _ Hr)
    as (ymax & st & xs & ys & s & _ & Hl & _ & _ & _ & ->).
  cbn [r_args r_errors r_indices].
  destruct (while_visits _ _ _ _ _ _ _ Hl) as [Hv _].
  destruct (visits_appended x y deg _ _ st Hxy Hv) as (added & Ha & Hlen & Hin).
  destruct (visits_same_knots UnivariateSpline x y deg _ _ st Hv
              (seeded_same_knots x deg seeds)) as [_ Hperm].
  exists added. change (args (seeded x deg seeds)) with (fst (_seed x deg seeds)) in Ha.
  change (len (errors (seeded x deg seeds))) with 0 in Hlen.
  split; [exact Ha|]. split; [lia|]. split; [exact Hin|].
  rewrite <- Ha. now symmetry.
Qed.

(** X4.  A result of [_greedy] holds as many knots as there were seeds and
    trace entries together, and never more than [len x - 1] of them unless
    the seeds alone were more: the loop makes at most
    [len x - 1 - (number of seeds)] passes that keep their point. *)
Theorem knot_count_bound (fuel : nat) (x y : list float) (tol : float)
  (rel : bool) (deg : Z) (seeds : option (list Z)) (r : greedy_result) :
  run_greedy fuel x y tol rel deg seeds = Returns r ->
  len (r_indices r) = len (fst (_seed x deg seeds)) + len (r_errors r)
  /\ len (r_indices r) <= Z.max (len (fst (_seed x deg seeds))) (len x - 1)
  /\ len (r_errors r) <= Z.max 0 (len x - 1 - len (fst (_seed x deg seeds))).
Proof.
  intros Hr.
  destruct (greedy_inv_full _ _ _ _ _ _ _ _ Hr)
    as (ymax & st & xs & ys & s & _ & Hl & _ & _ & _ & ->).
  cbn [r_errors r_indices].
  destruct (while_visits _ _ _ _ _ _ _ Hl) as [Hv _].
  destruct (visits_count x y deg _ _ st Hv (seeded_same_knots x deg seeds) eq_refl)
    as [Hn Hle].
  change (indices (seeded x deg seeds)) with (fst (_seed x deg seeds)) in *.
  change (len (errors (seeded x deg seeds))) with 0 in Hn. lia.
Qed.

Lemma stored_fields (fuel : nat) (self self' : ReducedOrderSpline)
  (x y : list float) (tol : float) (rel : bool) (deg : Z) (seeds : option (list Z)) :
  greedy UnivariateSpline fuel self x y tol rel deg seeds = Returns self' ->
  exists idx X Y s,
    self_indices self' = Some idx
    /\ self_X self' = Some X
    /\ self_Y self' = Some Y
    /\ take x idx = Returns X
    /\ take y idx = Returns Y
    /\ (forall k i, nth_error idx k = Some i ->
          exists u v, nth_error X k = Some u /\ getitem x i = Returns u
                      /\ nth_error Y k = Some v /\ getitem y i = Returns v)
    /\ len X = len idx
    /\ len Y = len idx
    /\ self_size self' = Some (len idx)
    /\ 1 <= len idx
    /\ self_deg self' = deg
    /\ UnivariateSpline X Y (self_deg self') = inr s
    /\ self_spline self' = Some s
    /\ self_compression self'
       = Some (float_of_int (len y) / float_of_int (len idx))%float.
Proof.
  intros Hg.
  destruct (greedy_method_inv_full _ _ _ _ _ _ _ _ _ Hg)
    as (r & X & Y & Hr & HX & HY & Hsz & ->).
  destruct (greedy_inv_full _ _ _ _ _ _ _ _ Hr)
    as (ymax & st & xs & ys & s & _ & _ & Hx & Hy & Hs & ->).
  cbn [r_indices r_spline] in *. rewrite HX in Hx. rewrite HY in Hy.
  injection Hx as <-. injection Hy as <-.
  exists (indices st), X, Y, s. cbn.
  pose proof (len_nonneg (indices st)).
  repeat split; try reflexivity; try assumption; try lia.
  - intros k i Hk.
    destruct (take_nth x _ X k i HX Hk) as (u & Hu & Hxu).
    destruct (take_nth y _ Y k i HY Hk) as (v & Hv & Hyv).
    exists u, v. auto.
  - apply (take_length x _ _ HX).
  - apply (take_length y _ _ HY).
Qed.

(** X5.  The attributes of a model that [greedy] built fit together:
    [X] and [Y] are the data at [indices], entry by entry, each of length
    [size >= 1]; the stored interpolant is what the fit through exactly [X]
    and [Y] with the stored degree returned; [compression] is
    [len(y) / size]. *)
Theorem stored_model (fuel : nat) (self self' : ReducedOrderSpline)
  (x y : list float) (tol : float) (rel : bool) (deg : Z) (seeds : option (list Z)) :
  greedy UnivariateSpline fuel self x y tol rel deg seeds = Returns self' ->
  exists idx X Y s,
    self_indices self' = Some idx
    /\ self_X self' = Some X
    /\ self_Y self' = Some Y
    /\ take x idx = Returns X
    /\ take y idx = Returns Y
    /\ (forall k i, nth_error idx k = Some i ->
          exists u v, nth_error X k = Some u /\ getitem x i = Returns u
                      /\ nth_error Y k = Some v /\ getitem y i = Returns v)
    /\ len X = len idx
    /\ len Y = len idx
    /\ self_size self' = Some (len idx)
    /\ 1 <= len idx
    /\ self_deg self' = deg
    /\ UnivariateSpline X Y (self_deg self') = inr s
    /\ self_spline self' = Some s
    /\ self_compression self'
       = Some (float_of_int (len y) / float_of_int (len idx))%float.
Proof.
  intros Hg.
  destruct (greedy_method_inv_full _ _ _ _ _ _ _ _ _ Hg)
    as (r & X & Y & Hr & HX & HY & Hsz & ->).
  destruct (greedy_inv_full _ _ _ _ _ _ _ _ Hr)
    as (ymax & st & xs & ys & s & _ & _ & Hx & Hy & Hs & ->).
  cbn [r_indices r_spline] in *. rewrite HX in Hx. rewrite HY in Hy.
  injection Hx as <-. injection Hy as <-.
  exists (indices st), X, Y, s. cbn.
  pose proof (len_nonneg (indices st)).
  repeat split; try reflexivity; try assumption; try lia.
  - intros k i Hk.
    destruct (take_nth x _ X k i HX Hk) as (u & Hu & Hxu).
    destruct (take_nth y _ Y k i HY Hk) as (v & Hv & Hyv).
    exists u, v. auto.
  - apply (take_length x _ _ HX).
  - apply (take_length y _ _ HY).
Qed.

(** X6.  [readSpline] assembles an instance from the degree, tolerance,
    [X], [Y] and trace of a model that [greedy] built without raising, and
    the instance carries the same interpolant: [eval] and [verify] give the
    same outcome on every input as on the model itself, and [read] hands
    both on to the instance it updates. *)
Theorem rebuild_same_interpolant (fuel : nat) (self self' : ReducedOrderSpline)
  (x y : list float) (tol : float) (rel : bool) (deg : Z) (seeds : option (list Z)) :
  greedy UnivariateSpline fuel self x y tol rel deg seeds = Returns self' ->
  exists X Y errors tol' loaded,
    self_X self' = Some X /\ self_Y self' = Some Y
    /\ self_errors self' = Some errors /\ self_tol self' = Some tol'
    /\ assemble UnivariateSpline (self_deg self') tol' X Y errors = Returns loaded
    /\ (forall t dx, eval loaded t dx = eval self' t dx)
    /\ (forall x' y', verify loaded x' y' = verify self' x' y')
    /\ forall other, exists got,
         read other loaded = Returns got
         /\ (forall t dx, eval got t dx = eval self' t dx)
         /\ (forall x' y', verify got x' y' = verify self' x' y').
Proof.
  intros Hg.
  destruct (stored_fields _ _ _ _ _ _ _ _ _ Hg)
    as (idx & X & Y & s & _ & HX & HY & _ & _ & _ & _ & _ & _ & _ & _ & Hfit & Hs & _).
  destruct (greedy_method_inv_full _ _ _ _ _ _ _ _ _ Hg)
    as (r & X' & Y' & _ & _ & _ & _ & Heq).
  assert (self_errors self' = Some (r_errors r)) as He by (now rewrite Heq).
  assert (self_tol self' = Some (r_tol r)) as Ht by (now rewrite Heq).
  assert (self_made self' = true) as Hm by (now rewrite Heq).
  exists X, Y, (r_errors r), (r_tol r). eexists.
  split; [exact HX|]. split; [exact HY|]. split; [exact He|]. split; [exact Ht|].
  split; [unfold assemble; rewrite Hfit; reflexivity|].
  split; [|split].
  - intros t dx. unfold eval. rewrite Hs. reflexivity.
  - intros x' y'. unfold verify. rewrite Hs, Ht, Hm. reflexivity.
  - intros other. eexists. split; [reflexivity|]. split.
    + intros t dx. unfold eval. rewrite Hs. reflexivity.
    + intros x' y'. unfold verify. rewrite Hs, Ht, Hm. reflexivity.
Qed.

(** X7.  [__init__] with abscissas and ordinates of different lengths raises
    the assertion error, whatever the other arguments: no seeding and no fit
    takes place. *)
Theorem init_rejects_mismatch (fuel : nat) (x y : list float) (deg : Z) (tol : float)
  (rel : bool) (seeds : option (list Z)) :
  len x <> len y ->
  __init__ UnivariateSpline fuel (Some x) (Some y) deg tol rel seeds
  = Raises AssertionError.
Proof.
  intros Hne. unfold __init__. apply Z.eqb_neq in Hne. now rewrite Hne.
Qed.

(** X8.  Without ordinates [__init__] builds nothing, even when abscissas
    are given: on the instance it returns, [verify] raises the plain
    exception, [eval] and [__call__] raise the attribute error, and [read]
    cannot take the instance as its source. *)
Theorem use_before_ready (fuel : nat) (x : option (list float)) (deg : Z) (tol : float)
  (rel : bool) (seeds : option (list Z)) :
  exists self,
    __init__ UnivariateSpline fuel x None deg tol rel seeds = Returns self
    /\ self_made self = false
    /\ (forall x' y', verify self x' y' = Raises PlainException)
    /\ (forall x' dx, eval self x' dx = Raises AttributeError)
    /\ (forall x' dx, __call__ self x' dx = Raises AttributeError)
    /\ (forall other, read other self = Raises AttributeError).
Proof.
  exists (fresh deg rel). repeat split.
Qed.

Lemma take_empty {A : Type} (idx : list Z) :
  idx <> [] -> take (@nil A) idx = Raises IndexError.
Proof.
  destruct idx as [|i idx]; [congruence|]. intros _. cbn [take]. unfold getitem.
  change (len (@nil A)) with 0. cbn [Z.opp].
  destruct (Z.ltb_spec i 0); [reflexivity|].
  destruct (Z.leb_spec 0 i); [reflexivity|lia].
Qed.

Lemma default_seed_count (x : list float) (deg : Z) :
  len (fst (_seed x deg None)) = 2 + Z.max 0 (deg - 1).
Proof.
  rewrite default_seed, len_sort.
  change (len (0 :: len x - 1 :: f (deg - 1) (len x)))
    with (len ([0; len x - 1] ++ f (deg - 1) (len x))).
  rewrite len_app, f_points, len_map, len_range. reflexivity.
Qed.

(** X9.  [_greedy] itself does not compare the lengths of [x] and [y].
    With the default seeds, when the lengths differ and the domain is long
    enough for a first pass, that pass raises (the index error of
    [y[indices]], what the fit on the seeds raised, or the value error of
    [s(x) - y]), and so does [_greedy]: no result is computed from
    mismatched data. *)
Theorem greedy_mismatch_raises (x y : list float) (tol : float) (rel : bool) (deg : Z)
  (ymax : float) :
  len x <> len y ->
  len (fst (_seed x deg None)) + 1 < len x ->
  scale y rel = Returns ymax ->
  exists e,
    (e = IndexError \/ e = ValueError
     \/ exists xs ys,
          take x (fst (_seed x deg None)) = Returns xs
          /\ take y (fst (_seed x deg None)) = Returns ys
          /\ UnivariateSpline xs ys deg = inl e)
    /\ forall fuel, run_greedy (S fuel) x y tol rel deg None = Raises e.
Proof.
  intros Hne Hlong Hscale.
  pose proof (default_seed_count x deg) as Hcount.
  set (st0 := seeded x deg None).
  assert (Forall (in_bounds (len x)) (indices st0)) as Hb.
  { eapply Forall_impl; [|apply default_seed_in_range; lia].
    unfold in_bounds. cbv beta. intros. lia. }
  destruct (proj1 (take_defined x _) Hb) as [xs Hxs].
  assert (exists e, (e = IndexError \/ e = ValueError
                     \/ exists xs ys,
                          take x (fst (_seed x deg None)) = Returns xs
                          /\ take y (fst (_seed x deg None)) = Returns ys
                          /\ UnivariateSpline xs ys deg = inl e)
                    /\ fit_errors UnivariateSpline x y deg (indices st0) = Raises e)
    as (e & He & Hfit).
  { unfold fit_errors. rewrite Hxs. cbn [bind].
    destruct (take_outcome y (indices st0)) as [[ys Hys]|Hys]; rewrite Hys; cbn [bind].
    - destruct (UnivariateSpline xs ys deg) as [ex|s] eqn:Hs; cbn [lift bind].
      { exists ex. split; [|reflexivity]. right. right. exists xs, ys. auto. }
      exists ValueError. split; [right; now left|].
      assert (len y <> 1) as Hy1.
      { intros Hy1.
        assert (Forall (in_bounds (len y)) (indices st0)) as Hby
            by (apply take_defined; eauto).
        rewrite Hy1 in Hby. rewrite Forall_forall in Hby.
        assert (In (len x - 1) (indices st0)) as Hin.
        { change (indices st0) with (fst (_seed x deg None)).
          rewrite default_seed. apply in_sort. right. now left. }
        apply Hby in Hin. unfold in_bounds in Hin. lia. }
      unfold abs_errors, np.sub, call. rewrite len_map.
      apply Z.eqb_neq in Hne. rewrite Hne.
      destruct x as [|x0 [|x1 x']];
        [change (len (@nil float)) with 0 in Hlong; lia
        |change (len [x0]) with 1 in Hlong; lia|].
      destruct y as [|y0 [|y1 y']]; [reflexivity | now contradiction Hy1 | reflexivity].
    - exists IndexError. split; [now left | reflexivity]. }
  exists e. split; [exact He|]. intros fuel.
  unfold _greedy. rewrite Hscale. cbn [bind]. fold st0. cbn [while].
  rewrite (proj2 (guard_true x st0)); [|split; [reflexivity | exact Hlong]].
  unfold body. rewrite Hfit. reflexivity.
Qed.

(** X10.  Empty data raises.  On an empty domain the default seeds hold the
    indices 0 and -1, no pass runs, and the final [x[indices]] raises the
    index error; in relative mode empty ordinates raise the value error of
    [np.max] before anything else.  [__init__] on empty ordinates (with or
    without empty abscissas) ends the same way. *)
Theorem greedy_empty_data (fuel : nat) (tol : float) (deg : Z) :
  (forall y, run_greedy (S fuel) [] y tol false deg None = Raises IndexError)
  /\ (forall x seeds, run_greedy fuel x [] tol true deg seeds = Raises ValueError)
  /\ (forall x, x = None \/ x = Some [] ->
        __init__ UnivariateSpline (S fuel) x (Some []) deg tol false None
        = Raises IndexError)
  /\ (forall x seeds, x = None \/ x = Some [] ->
        __init__ UnivariateSpline fuel x (Some []) deg tol true seeds
        = Raises ValueError).
Proof.
  assert (forall y, run_greedy (S fuel) [] y tol false deg None = Raises IndexError) as H1.
  { intros y. unfold _greedy. cbn [scale bind while].
    rewrite (proj2 (guard_false [] (seeded [] deg None))).
    - cbn [bind]. rewrite take_empty; [reflexivity|].
      intros E. pose proof (default_seed_count [] deg) as Hc.
      change (indices (seeded [] deg None)) with (fst (_seed [] deg None)) in E.
      rewrite E in Hc. change (len (@nil Z)) with 0 in Hc. lia.
    - right. change (ctr (seeded [] deg None)) with (len (fst (_seed [] deg None)) + 1).
      pose proof (len_nonneg (fst (_seed [] deg None))).
      change (len (@nil float)) with 0. lia. }
  assert (forall x seeds, run_greedy fuel x [] tol true deg seeds = Raises ValueError) as H2
      by reflexivity.
  split; [exact H1|]. split; [exact H2|]. split.
  - intros x [-> | ->]; unfold __init__, greedy; cbn [assert bind scale];
      change (np.arange (len (@nil float))) with (@nil float);
      cbn [len length Z.of_nat Z.eqb assert bind]; now rewrite H1.
  - intros x seeds [-> | ->]; reflexivity.
Qed.

(** X11.  [readSpline] ends in the fit through the [X] and [Y] it read: when
    that fit raises, so does [readSpline]; when it returns, [read]
    overwrites the degree, interpolant, [X], [Y], trace and tolerance of the
    instance with those that [readSpline] assembled and marks it built, so
    [eval] and [verify] work on it as on the assembled instance; it leaves
    [indices], [args], [size], [compression] and the mode as they were,
    whatever they were. *)
Theorem read_loaded (self : ReducedOrderSpline) (deg : Z) (tol : float)
  (X Y errors : list float) :
  match UnivariateSpline X Y deg with
  | inl e => assemble UnivariateSpline deg tol X Y errors = Raises e
  | inr s =>
      exists ans self',
        assemble UnivariateSpline deg tol X Y errors = Returns ans
        /\ read self ans = Returns self'
        /\ self_made self' = true
        /\ self_deg self' = deg
        /\ self_X self' = Some X /\ self_Y self' = Some Y
        /\ self_errors self' = Some errors /\ self_tol self' = Some tol
        /\ (forall t dx, eval self' t dx = Returns (map (fun v => s v dx) t))
        /\ (forall x' y', verify self' x' y' = verify ans x' y')
        /\ self_indices self' = self_indices self
        /\ self_args self' = self_args self
        /\ self_size self' = self_size self
        /\ self_compression self' = self_compression self
        /\ self_rel self' = self_rel self
  end.
Proof.
  unfold assemble. destruct (UnivariateSpline X Y deg) as [e|s]; [reflexivity|].
  cbn [lift bind]. eexists. eexists. split; [reflexivity|]. split; [reflexivity|].
  repeat split.
Qed.

End ResultFacts.

(** ** The seeders *)

(** X12.  For a degree of 1 or less the default seeds are the two end
    points alone: the range of the interior points is empty, so nothing is
    divided by [deg - 1] and nothing is raised. *)
Theorem seed_low_degree (x : list float) (deg : Z) :
  deg <= 1 -> 1 <= len x ->
  _seed x deg None = ([0; len x - 1], []).
Proof.
  intros Hd Hn. unfold _seed. f_equal.
  assert (f (deg - 1) (len x) = []) as ->.
  { unfold f, range. replace (Z.to_nat (deg - 1)) with 0%nat by lia. reflexivity. }
  cbn [np.hstack concat app]. apply sort_of_permutation; [|reflexivity].
  repeat constructor. lia.
Qed.

(** X13.  The method [seed] stores what [_seed] computes for the degree of
    the instance: without a seed list, for a degree [d >= 2] on a domain
    longer than [d], these are [d+1] ascending indices with both end
    points, pairwise distinct exactly when [len x > 2(d-1)].  They become
    [indices] and [args], the trace is emptied, and a built model keeps its
    interpolant, tolerance and [size]. *)
Theorem seed_method_agrees (self : ReducedOrderSpline) (x : list float) :
  2 <= self_deg self -> self_deg self < len x ->
  exists idx,
    idx = fst (_seed x (self_deg self) None)
    /\ self_indices (seed self x None) = Some idx
    /\ self_args (seed self x None) = Some idx
    /\ self_errors (seed self x None) = Some []
    /\ len idx = self_deg self + 1
    /\ ascending idx
    /\ In 0 idx /\ In (len x - 1) idx
    /\ (NoDup idx <-> 2 * (self_deg self - 1) < len x)
    /\ self_made (seed self x None) = self_made self
    /\ self_size (seed self x None) = self_size self
    /\ (forall t dx, eval (seed self x None) t dx = eval self t dx)
    /\ (forall x' y', verify (seed self x None) x' y' = verify self x' y').
Proof.
  intros Hd Hn. exists (fst (_seed x (self_deg self) None)).
  split; [reflexivity|]. split; [reflexivity|]. split; [reflexivity|].
  split; [reflexivity|]. split; [rewrite default_seed_count; lia|].
  split; [rewrite default_seed; apply sort_ascending|].
  split; [rewrite default_seed; apply in_sort; now left|].
  split; [rewrite default_seed; apply in_sort; right; now left|].
  split; [now apply NoDup_default_seed|].
  repeat split.
Qed.

(** ** These theorems on concrete runs *)

Lemma result6_run : _greedy table_fit 7 x6 y6 2%float false 2 None = Returns result6.
Proof. vm_compute. reflexivity. Defined.

Lemma converged6_run :
  greedy table_fit 7 (fresh 2 false) x6 y6 2%float false 2 None = Returns converged6.
Proof. vm_compute. reflexivity. Defined.

Lemma ascending_seeds6 : ascending (fst (_seed x6 2 None)).
Proof. rewrite default_seed. apply sort_ascending. Defined.

Lemma converged_within_tolerance_witness :
  exists errs,
    abs_errors (r_spline result6) x6 y6 = Returns errs
    /\ Forall (fun v => (v <? r_tol result6)%float = true) errs.
Proof.
  apply (converged_within_tolerance table_fit 7 x6 y6 2%float false 2 None result6).
  - exact result6_run.
  - exact ascending_seeds6.
  - vm_compute. reflexivity.
Defined.

Lemma verify_after_greedy_witness :
  exists errors, verify converged6 x6 y6 = Returns (true, errors).
Proof.
  apply (verify_after_greedy table_fit 7 (fresh 2 false) converged6 x6 y6 2%float
           false 2 None 4).
  - exact converged6_run.
  - reflexivity.
  - exact ascending_seeds6.
  - reflexivity.
  - vm_compute. reflexivity.
Defined.

Lemma selection_bookkeeping_witness :
  exists added,
    r_args result6 = fst (_seed x6 2 None) ++ added
    /\ len added = len (r_errors result6)
    /\ Forall (fun i => 0 <= i < len x6) added
    /\ Permutation (r_indices result6) (fst (_seed x6 2 None) ++ added).
Proof.
  apply (selection_bookkeeping table_fit 7 x6 y6 2%float false 2 None result6).
  - exact result6_run.
  - reflexivity.
Defined.

Lemma knot_count_bound_witness :
  len (r_indices result6) <= Z.max (len (fst (_seed x6 2 None))) (len x6 - 1).
Proof.
  apply (knot_count_bound table_fit 7 x6 y6 2%float false 2 None result6).
  exact result6_run.
Defined.

Lemma stored_model_witness :
  exists idx X Y s,
    self_indices converged6 = Some idx
    /\ self_X converged6 = Some X
    /\ self_Y converged6 = Some Y
    /\ take x6 idx = Returns X
    /\ take y6 idx = Returns Y
    /\ (forall k i, nth_error idx k = Some i ->
          exists u v, nth_error X k = Some u /\ getitem x6 i = Returns u
                      /\ nth_error Y k = Some v /\ getitem y6 i = Returns v)
    /\ len X = len idx
    /\ len Y = len idx
    /\ self_size converged6 = Some (len idx)
    /\ 1 <= len idx
    /\ self_deg converged6 = 2
    /\ table_fit X Y (self_deg converged6) = inr s
    /\ self_spline converged6 = Some s
    /\ self_compression converged6
       = Some (float_of_int (len y6) / float_of_int (len idx))%float.
Proof.
  apply (stored_model table_fit 7 (fresh 2 false) converged6 x6 y6 2%float false 2 None).
  exact converged6_run.
Defined.

Lemma rebuild_same_interpolant_witness :
  exists X Y errors tol' loaded,
    self_X converged6 = Some X /\ self_Y converged6 = Some Y
    /\ self_errors converged6 = Some errors /\ self_tol converged6 = Some tol'
    /\ assemble table_fit (self_deg converged6) tol' X Y errors = Returns loaded
    /\ (forall t dx, eval loaded t dx = eval converged6 t dx)
    /\ (forall x' y', verify loaded x' y' = verify converged6 x' y')
    /\ forall other, exists got,
         read other loaded = Returns got
         /\ (forall t dx, eval got t dx = eval converged6 t dx)
         /\ (forall x' y', verify got x' y' = verify converged6 x' y').
Proof.
  apply (rebuild_same_interpolant table_fit 7 (fresh 2 false) converged6 x6 y6
           2%float false 2 None).
  exact converged6_run.
Defined.

Lemma init_rejects_mismatch_witness :
  __init__ table_fit 7 (Some x6) (Some y5) 2 0.5%float false None
  = Raises AssertionError.
Proof.
  apply (init_rejects_mismatch table_fit 7 x6 y5 2 0.5%float false None).
  vm_compute. discriminate.
Defined.

Lemma greedy_mismatch_raises_witness :
  exists e,
    (e = IndexError \/ e = ValueError
     \/ exists xs ys,
          take x6 (fst (_seed x6 2 None)) = Returns xs
          /\ take y5 (fst (_seed x6 2 None)) = Returns ys
          /\ table_fit xs ys 2 = inl e)
    /\ forall fuel, _greedy table_fit (S fuel) x6 y5 0.5%float false 2 None = Raises e.
Proof.
  apply (greedy_mismatch_raises table_fit x6 y5 0.5%float false 2 1%float).
  - vm_compute. discriminate.
  - vm_compute. reflexivity.
  - reflexivity.
Defined.

Lemma seed_low_degree_witness : _seed x6 1 None = ([0; len x6 - 1], []).
Proof.
  apply (seed_low_degree x6 1).
  - vm_compute. discriminate.
  - vm_compute. discriminate.
Defined.

Lemma seed_method_agrees_witness :
  exists idx,
    idx = fst (_seed x6 (self_deg converged6) None)
    /\ self_indices (seed converged6 x6 None) = Some idx
    /\ self_args (seed converged6 x6 None) = Some idx
    /\ self_errors (seed converged6 x6 None) = Some []
    /\ len idx = self_deg converged6 + 1
    /\ ascending idx
    /\ In 0 idx /\ In (len x6 - 1) idx
    /\ (NoDup idx <-> 2 * (self_deg converged6 - 1) < len x6)
    /\ self_made (seed converged6 x6 None) = self_made converged6
    /\ self_size (seed converged6 x6 None) = self_size converged6
    /\ (forall t dx, eval (seed converged6 x6 None) t dx = eval converged6 t dx)
    /\ (forall x' y', verify (seed converged6 x6 None) x' y' = verify converged6 x' y').
Proof.
  apply (seed_method_agrees converged6 x6).
  - vm_compute. discriminate.
  - vm_compute. reflexivity.
Defined.

(** * Persistence *)

(** ** Paths and lookups *)








Lemma hdf5_extension (ext : string) :
  is_hdf5 ext = true -> in_types ext = true /\ String.eqb ext ".txt" = false.
Proof.
  unfold is_hdf5. intros H. apply orb_true_iff in H.
  destruct H as [H|H]; apply String.eqb_eq in H; subst; split; reflexivity.
Qed.

Section PersistenceFacts.

Variable UnivariateSpline : fitter.
Variable str : float -> string.
Variable float_of_str : string -> outcome float.
Variable storable : dataset -> bool -> bool.









End PersistenceFacts.

(** ** Writing and reading back *)

(** What [greedy] builds is a reduced model. *)
Lemma greedy_reduced_model (UnivariateSpline : fitter) (fuel : nat)
  (self self' : ReducedOrderSpline) (x y : list float) (tol : float) (rel : bool)
  (deg : Z) (seeds : option (list Z)) :
  greedy UnivariateSpline fuel self x y tol rel deg seeds = Returns self' ->
  exists tol' X Y errors s,
    reduced_model UnivariateSpline self' tol' X Y errors s.
Proof.
  intros Hg.
  destruct (stored_fields _ _ _ _ _ _ _ _ _ _ Hg)
    as (idx & X & Y & s & _ & HX & HY & _ & _ & _ & _ & _ & _ & _ & _ & Hfit & Hs & _).
  destruct (greedy_method_inv_full _ _ _ _ _ _ _ _ _ _ Hg)
    as (r & X' & Y' & _ & _ & _ & _ & Heq).
  exists (r_tol r), X, Y, (r_errors r), s. unfold reduced_model.
  split; [now rewrite Heq|]. split; [now rewrite Heq|].
  split; [exact HX|]. split; [exact HY|]. split; [now rewrite Heq|].
  split; [exact Hfit | exact Hs].
Qed.

Section RoundTrip.

Variable UnivariateSpline : fitter.
Variable str : float -> string.
Variable float_of_str : string -> outcome float.
Variable storable : dataset -> bool -> bool.


End RoundTrip.

(** ** Round trips on concrete runs *)




(** ** Refused files *)

Section RefusedFiles.

Variable UnivariateSpline : fitter.
Variable str : float -> string.
Variable float_of_str : string -> outcome float.
Variable storable : dataset -> bool -> bool.

(** X14.  A file name whose extension is none of [.txt], [.h5] and [.hdf5]
    is refused with the assertion error, by [write] before anything is
    written and by [readSpline] before anything is opened. *)
Theorem unsupported_extension (self : ReducedOrderSpline) (file : string)
  (slim : bool) (group_name : option string) (d : disk) :
  in_types (snd (splitext file)) = false ->
  write str storable self file slim d = Raises AssertionError
  /\ readSpline UnivariateSpline float_of_str file group_name d = Raises AssertionError.
Proof.
  intros H. unfold write, readSpline. rewrite H. split; reflexivity.
Qed.

(** X15.  [readSpline] on a name that is not on the disk raises: the plain
    exception for an HDF5 name, the I/O error for a text name, also when
    only one of [deg.txt], [tol.txt], [X.txt] and [Y.txt] is missing from
    the directory.  A missing [errors.txt] alone raises nothing. *)
Theorem read_missing (file : string) (group_name : option string) (d : disk) :
  (is_hdf5 (snd (splitext file)) = true ->
   lookup file d = None ->
   readSpline UnivariateSpline float_of_str file group_name d = Raises PlainException)
  /\ (snd (splitext file) = ".txt"%string ->
      Exists (fun name => lookup (file ++ name) d = None)
             ["/deg.txt"; "/tol.txt"; "/X.txt"; "/Y.txt"]%string ->
      readSpline UnivariateSpline float_of_str file group_name d = Raises IOError).
Proof.
  split.
  - intros Hext Hfile. destruct (hdf5_extension _ Hext) as [Htypes _].
    unfold readSpline. now rewrite Htypes, Hext, Hfile.
  - intros Hext Hmiss. unfold readSpline. rewrite Hext.
    cbn [in_types types existsb String.eqb Ascii.eqb Bool.eqb orb assert bind is_hdf5].
    unfold open_r.
    repeat match goal with
    | H : Exists _ (_ :: _) |- _ => inversion_clear H
    | H : Exists _ [] |- _ => inversion H
    | H : lookup _ d = None |- _ => rewrite H
    end;
    repeat match goal with
    | |- context [match lookup ?p d with _ => _ end] =>
        destruct (lookup p d) as [[| |]|]; cbn [bind]
    end; reflexivity.
Qed.

End RefusedFiles.

Lemma unsupported_extension_witness :
  write py.str any_dataset converged6 "rom.dat" false [] = Raises AssertionError
  /\ readSpline table_fit py.float "rom.dat" None [] = Raises AssertionError.
Proof.
  apply (unsupported_extension table_fit py.str py.float any_dataset converged6
           "rom.dat" false None []).
  reflexivity.
Defined.

Lemma read_missing_witness :
  readSpline table_fit py.float "rom.h5" None [] = Raises PlainException
  /\ readSpline table_fit py.float "rom.txt" None [("rom.txt"%string, Directory)]
     = Raises IOError.
Proof.
  split.
  - apply (proj1 (read_missing table_fit py.float "rom.h5" None [])); reflexivity.
  - apply (proj2 (read_missing table_fit py.float "rom.txt" None
                    [("rom.txt"%string, Directory)])).
    + reflexivity.
    + left. reflexivity.
Defined.
